(** * timetracker_transitiontool: a shallow embedding of [src/main.rs]

    The tool reads the two tables of the legacy timetracker database,
    maps every row to the layout of the new database and inserts it.
    This file embeds the mapping ([round6], the row structs, the
    [chrono::Local] date localisation and ISO week computation) and the
    sequence of reads and writes of [main] over a model of the two
    SQLite stores. *)

From Stdlib Require Import ZArith List Bool String Lia.
From Stdlib Require Import Floats.
Import ListNotations.

Open Scope Z_scope.
#[local] Set Warnings "-inexact-float".

(** ** [round6] *)

Module F64.

(** [f64::round]: round half away from zero.  A finite value is split
    into its sign and the magnitude of its rounded integer; zeros keep
    their sign, infinities and NaN are returned unchanged. *)

Definition prec : Z := 53.
Definition emax : Z := 1024.

(** Magnitude [m * 2^(-k)] rounded half away from zero, [k > 0]. *)
Definition round_half_away (m : positive) (k : Z) : Z :=
  let q := Z.pos m / 2 ^ k in
  let r := Z.pos m mod 2 ^ k in
  if 2 ^ k <=? 2 * r then q + 1 else q.

Definition round_parts (x : float) : option (bool * Z) :=
  match Prim2SF x with
  | S754_zero s => Some (s, 0)
  | S754_finite s m e =>
      Some (s, if 0 <=? e then Z.pos m * 2 ^ e else round_half_away m (- e))
  | _ => None
  end.

(** The float holding the integer [±n] (sign [s]). *)
Definition of_parts (s : bool) (n : Z) : float :=
  SF2Prim (binary_normalize prec emax (if s then - n else n) 0 s).

Definition round (x : float) : float :=
  match round_parts x with
  | Some (s, n) => of_parts s n
  | None => x
  end.

End F64.

Definition million : float := 1e6%float.

(** [fn round6 (val: f64) -> f64 { (val * 1_000_000.).round() / 1_000_000. }] *)
Definition round6 (val : float) : float :=
  (F64.round (val * million) / million)%float.

Example round_half : F64.round 0.5%float = 1%float. Proof. vm_compute. reflexivity. Qed.
Example round_mhalf : F64.round (-0.5)%float = (-1)%float. Proof. vm_compute. reflexivity. Qed.
Example round_25 : F64.round 2.5%float = 3%float. Proof. vm_compute. reflexivity. Qed.
Example round_below : F64.round 0.49999999999999994%float = 0%float. Proof. vm_compute. reflexivity. Qed.
Example round_mzero : F64.round (-0.3)%float = (-0)%float. Proof. vm_compute. reflexivity. Qed.
Example round_big : F64.round 4503599627370495.5%float = 4503599627370496%float. Proof. vm_compute. reflexivity. Qed.
Example round_huge : F64.round 1e300%float = 1e300%float. Proof. vm_compute. reflexivity. Qed.

(** ** The part of [chrono] that [main] uses

    [chrono::Local.with_ymd_and_hms(y, m, d, 0, 0, 0).unwrap()] and
    [DateTime::iso_week().year()].  chrono stores a date as year, ordinal
    and year flags (the weekday of January 1st and leapness); here a date
    is kept as year, month and day, and the ordinal and weekdays are
    computed from them. *)

Module Chrono.

(** [MAX_YEAR = i32::MAX >> 13], [MIN_YEAR = i32::MIN >> 13]. *)
Definition MAX_YEAR : Z := Z.shiftr (2 ^ 31 - 1) 13.
Definition MIN_YEAR : Z := Z.shiftr (- 2 ^ 31) 13.

Definition is_leap (y : Z) : bool :=
  ((y mod 4 =? 0) && negb (y mod 100 =? 0)) || (y mod 400 =? 0).

Definition days_in_month (y m : Z) : Z :=
  if m =? 2 then (if is_leap y then 29 else 28)
  else if (m =? 4) || (m =? 6) || (m =? 9) || (m =? 11) then 30
  else 31.

Record NaiveDate := mkDate { nd_year : Z; nd_month : Z; nd_day : Z }.

Definition valid_ymd (y m d : Z) : bool :=
  (MIN_YEAR <=? y) && (y <=? MAX_YEAR) && (1 <=? m) && (m <=? 12)
  && (1 <=? d) && (d <=? days_in_month y m).

(** [NaiveDate::from_ymd_opt] *)
Definition from_ymd_opt (y m d : Z) : option NaiveDate :=
  if valid_ymd y m d then Some (mkDate y m d) else None.

(** [NaiveDate::BEFORE_MIN] and [NaiveDate::AFTER_MAX]. *)
Definition BEFORE_MIN : NaiveDate := mkDate (MIN_YEAR - 1) 12 31.
Definition AFTER_MAX : NaiveDate := mkDate (MAX_YEAR + 1) 1 1.

(** [NaiveDate::succ_opt] and [NaiveDate::pred_opt]. *)
Definition succ_opt (dt : NaiveDate) : option NaiveDate :=
  let '(mkDate y m d) := dt in
  if d <? days_in_month y m then Some (mkDate y m (d + 1))
  else if m <? 12 then Some (mkDate y (m + 1) 1)
  else from_ymd_opt (y + 1) 1 1.

Definition pred_opt (dt : NaiveDate) : option NaiveDate :=
  let '(mkDate y m d) := dt in
  if 1 <? d then Some (mkDate y m (d - 1))
  else if 1 <? m then Some (mkDate y (m - 1) (days_in_month y (m - 1)))
  else from_ymd_opt (y - 1) 12 31.

(** Day of the year, 1-based. *)
Fixpoint days_before (y : Z) (k : nat) : Z :=
  match k with
  | O => 0
  | S k' => days_before y k' + days_in_month y (Z.of_nat (S k'))
  end.

Definition ordinal (dt : NaiveDate) : Z :=
  days_before (nd_year dt) (Z.to_nat (nd_month dt - 1)) + nd_day dt.

(** Days from 0001-01-01 (a Monday) to January 1st of [y]. *)
Definition days_to_year (y : Z) : Z :=
  365 * (y - 1) + (y - 1) / 4 - (y - 1) / 100 + (y - 1) / 400.

(** [Weekday::num_days_from_monday]. *)
Definition jan1_weekday (y : Z) : Z := days_to_year y mod 7.

Definition weekday (dt : NaiveDate) : Z :=
  (days_to_year (nd_year dt) + ordinal dt - 1) mod 7.

(** [YearFlags::nisoweeks]: 53 when January 1st is a Thursday, or a
    Wednesday in a leap year. *)
Definition nisoweeks (y : Z) : Z :=
  let w := jan1_weekday y in
  if (w =? 3) || (is_leap y && (w =? 2)) then 53 else 52.

(** [isoweek::iso_week_from_yof]: the raw week [(ordinal - weekday + 9) / 7]
    (weekday counted from Monday = 0), moved into the previous or next
    year when it falls outside [1 .. nisoweeks year]. *)
Record IsoWeek := mkIsoWeek { iw_year : Z; iw_week : Z }.

Definition iso_week (dt : NaiveDate) : IsoWeek :=
  let y := nd_year dt in
  let rawweek := (ordinal dt - weekday dt + 9) / 7 in
  if rawweek <? 1 then mkIsoWeek (y - 1) (nisoweeks (y - 1))
  else if nisoweeks y <? rawweek then mkIsoWeek (y + 1) 1
  else mkIsoWeek y rawweek.

End Chrono.

Example iw_2018_12_31 : Chrono.iso_week (Chrono.mkDate 2018 12 31) = Chrono.mkIsoWeek 2019 1.
Proof. reflexivity. Qed.
Example iw_2018_01_01 : Chrono.iso_week (Chrono.mkDate 2018 1 1) = Chrono.mkIsoWeek 2018 1.
Proof. reflexivity. Qed.
Example iw_2021_01_03 : Chrono.iso_week (Chrono.mkDate 2021 1 3) = Chrono.mkIsoWeek 2020 53.
Proof. reflexivity. Qed.
Example iw_2016_01_01 : Chrono.iso_week (Chrono.mkDate 2016 1 1) = Chrono.mkIsoWeek 2015 53.
Proof. reflexivity. Qed.
Example iw_2024_12_30 : Chrono.iso_week (Chrono.mkDate 2024 12 30) = Chrono.mkIsoWeek 2025 1.
Proof. reflexivity. Qed.
Example iw_2026_10_17 : Chrono.iso_week (Chrono.mkDate 2026 10 17) = Chrono.mkIsoWeek 2026 42.
Proof. reflexivity. Qed.
Example iw_m1_01_01 : Chrono.iso_week (Chrono.mkDate 0 1 1) = Chrono.mkIsoWeek (-1) 52.
Proof. reflexivity. Qed.

Module Local.
Import Chrono.

(** A [NaiveTime] at a whole second: seconds from midnight in
    [0 .. 86400) (the nanosecond part is zero throughout [main]). *)
Record NaiveDateTime := mkDT { ndt_date : NaiveDate; ndt_secs : Z }.

(** [NaiveDate::and_hms_opt]. *)
Definition and_hms_opt (dt : NaiveDate) (h mi s : Z) : option NaiveDateTime :=
  if (0 <=? h) && (h <? 24) && (0 <=? mi) && (mi <? 60) && (0 <=? s) && (s <? 60)
  then Some (mkDT dt (h * 3600 + mi * 60 + s)) else None.

(** [FixedOffset]: seconds east of UTC, strictly within one day. *)
Record FixedOffset := mkOffset {
  local_minus_utc : Z;
  offset_bounded : -86400 < local_minus_utc < 86400 }.

Inductive LocalResult (T : Type) :=
| LNone
| LSingle (t : T)
| LAmbiguous (earliest latest : T).
Arguments LNone {T}.
Arguments LSingle {T} t.
Arguments LAmbiguous {T} earliest latest.

(** [LocalResult::and_then]. *)
Definition and_then {T U} (r : LocalResult T) (f : T -> LocalResult U) : LocalResult U :=
  match r with
  | LNone => LNone
  | LSingle v => f v
  | LAmbiguous a b =>
      match f a, f b with
      | LSingle a', LSingle b' => LAmbiguous a' b'
      | _, _ => LNone
      end
  end.

(** [LocalResult::unwrap]: panics ([None] here) unless the result is
    [Single]. *)
Definition unwrap {T} (r : LocalResult T) : option T :=
  match r with LSingle t => Some t | _ => None end.

(** The machine's timezone: [Local::offset_from_local_datetime], the
    offset(s) in force at a local wall-clock time, as read from the
    operating system. *)
Definition TimeZone := NaiveDateTime -> LocalResult FixedOffset.

(** [NaiveTime::overflowing_sub_offset] and [overflowing_add_offset]:
    the new time of day and the day carry in [-1, 0, 1]. *)
Definition time_sub_offset (secs off : Z) : Z * Z :=
  ((secs - off) mod 86400, (secs - off) / 86400).
Definition time_add_offset (secs off : Z) : Z * Z :=
  ((secs + off) mod 86400, (secs + off) / 86400).

(** [NaiveDateTime::checked_sub_offset]. *)
Definition checked_sub_offset (ldt : NaiveDateTime) (off : Z) : option NaiveDateTime :=
  let '(t, days) := time_sub_offset (ndt_secs ldt) off in
  if days =? -1 then
    match pred_opt (ndt_date ldt) with Some d => Some (mkDT d t) | None => None end
  else if days =? 1 then
    match succ_opt (ndt_date ldt) with Some d => Some (mkDT d t) | None => None end
  else Some (mkDT (ndt_date ldt) t).

(** [NaiveDateTime::overflowing_add_offset]. *)
Definition overflowing_add_offset (udt : NaiveDateTime) (off : Z) : NaiveDateTime :=
  let '(t, days) := time_add_offset (ndt_secs udt) off in
  if days =? -1 then
    mkDT (match pred_opt (ndt_date udt) with Some d => d | None => BEFORE_MIN end) t
  else if days =? 1 then
    mkDT (match succ_opt (ndt_date udt) with Some d => d | None => AFTER_MAX end) t
  else mkDT (ndt_date udt) t.

(** [DateTime<Local>]: the UTC date-time and the offset. *)
Record DateTime := mkDateTime { dt_utc : NaiveDateTime; dt_offset : FixedOffset }.

(** [DateTime::naive_local]. *)
Definition naive_local (dt : DateTime) : NaiveDateTime :=
  overflowing_add_offset (dt_utc dt) (local_minus_utc (dt_offset dt)).

(** [TimeZone::from_local_datetime]. *)
Definition from_local_datetime (tz : TimeZone) (local : NaiveDateTime) : LocalResult DateTime :=
  and_then (tz local) (fun off =>
    match checked_sub_offset local (local_minus_utc off) with
    | Some utc => LSingle (mkDateTime utc off)
    | None => LNone
    end).

(** [TimeZone::with_ymd_and_hms]. *)
Definition with_ymd_and_hms (tz : TimeZone) (y m d h mi s : Z) : LocalResult DateTime :=
  match from_ymd_opt y m d with
  | Some nd =>
      match and_hms_opt nd h mi s with
      | Some ndt => from_local_datetime tz ndt
      | None => LNone
      end
  | None => LNone
  end.

(** [Datelike::iso_week] of a [DateTime]: the ISO week of its local date. *)
Definition dt_iso_week (dt : DateTime) : IsoWeek := iso_week (ndt_date (naive_local dt)).

(** A few zones: UTC, a fixed offset, and one where every local time is
    skipped (a gap) or repeated (a fold). *)
Definition utc0 : FixedOffset := mkOffset 0 ltac:(lia).
Definition UTC : TimeZone := fun _ => LSingle utc0.
Definition fixed_tz (off : FixedOffset) : TimeZone := fun _ => LSingle off.
Definition gap_tz : TimeZone := fun _ => LNone.
Definition fold_tz (a b : FixedOffset) : TimeZone := fun _ => LAmbiguous a b.

End Local.

(** ** Rows of the legacy tables and of the new tables *)

Module Old.
Record DBOldRowActivities := mkAct {
  id : Z;
  group_id : Z;        (* disregarded for new db *)
  name : string;
  added_when : string;
  is_activated : Z;
  hours_total : float }.

Record DBOldRowHistory := mkHis {
  id_activity : Z;
  year : Z;
  month : Z;
  day : Z;
  weeknumber : Z;
  hours_on_day : float;
  date : string }.
End Old.

(** The parameters [?1 .. ?5] of [INSERT INTO tt_activities]. *)
Module NewAct.
Record Row := mkRow {
  id : Z;
  name : string;
  added : string;
  isactive : Z;
  hourstotal : float }.
End NewAct.

(** The parameters [?1 .. ?8] of [INSERT INTO tt_history]. *)
Module NewHis.
Record Row := mkRow {
  id : Z;
  year : Z;
  month : Z;
  day : Z;
  isoweek : Z;
  isoweekyear : Z;
  hoursonday : float;
  date : string }.
End NewHis.

(** [rusqlite::params![e.id, e.name, e.added_when, e.is_activated,
    round6(e.hours_total)]] in the activities loop. *)
Definition activity_params (e : Old.DBOldRowActivities) : NewAct.Row :=
  {| NewAct.id := Old.id e;
     NewAct.name := Old.name e;
     NewAct.added := Old.added_when e;
     NewAct.isactive := Old.is_activated e;
     NewAct.hourstotal := round6 (Old.hours_total e) |}.

(** [TryInto<u32>] of an [i32]: fails on negative values. *)
Definition to_u32 (x : Z) : option Z :=
  if (0 <=? x) && (x <? 2 ^ 32) then Some x else None.

(** [chrono::Local.with_ymd_and_hms(year, month.try_into().unwrap(),
    day.try_into().unwrap(), 0, 0, 0).unwrap()]; [None] is a panic. *)
Definition local_midnight (tz : Local.TimeZone) (year month day : Z) : option Local.DateTime :=
  match to_u32 month with
  | None => None
  | Some m =>
      match to_u32 day with
      | None => None
      | Some d => Local.unwrap (Local.with_ymd_and_hms tz year m d 0 0 0)
      end
  end.

(** [dtlocal.iso_week().year()]. *)
Definition isoweekyear_of (tz : Local.TimeZone) (year month day : Z) : option Z :=
  match local_midnight tz year month day with
  | Some dtlocal => Some (Chrono.iw_year (Local.dt_iso_week dtlocal))
  | None => None
  end.

(** The parameters of [INSERT INTO tt_history] in the history loop. *)
Definition history_params (tz : Local.TimeZone) (e : Old.DBOldRowHistory) : option NewHis.Row :=
  match isoweekyear_of tz (Old.year e) (Old.month e) (Old.day e) with
  | Some iwy =>
      Some {| NewHis.id := Old.id_activity e;
              NewHis.year := Old.year e;
              NewHis.month := Old.month e;
              NewHis.day := Old.day e;
              NewHis.isoweek := Old.weeknumber e;
              NewHis.isoweekyear := iwy;
              NewHis.hoursonday := round6 (Old.hours_on_day e);
              NewHis.date := Old.date e |}
  | None => None
  end.

(** The ISO week-numbering year of a plain civil date. *)
Definition civil_iso_year (y m d : Z) : Z := Chrono.iw_year (Chrono.iso_week (Chrono.mkDate y m d)).

(** A civil date of the proleptic Gregorian calendar (any year). *)
Definition gregorian_valid (y m d : Z) : bool :=
  (1 <=? m) && (m <=? 12) && (1 <=? d) && (d <=? Chrono.days_in_month y m).

(** ** The stores and the effects of [main]

    The legacy store is the list of rows each [SELECT *] yields, a row
    being [None] when one of its columns does not convert ([row.get]
    fails and [e.unwrap()] panics).  The destination is the config
    folder and the SQLite file [productivity.db]: which of its two tables
    exist and their rows.  [main] runs in a state and error monad over
    the destination that also records a trace of what it does. *)

Record Legacy := mkLegacy {
  legacy_activities : list (option Old.DBOldRowActivities);
  legacy_history : list (option Old.DBOldRowHistory) }.

Record Store := mkStore {
  dcpath_present : bool;
  dbpath_present : bool;
  has_tt_activities : bool;
  has_tt_history : bool;
  foreign_keys : bool;          (* PRAGMA foreign_keys of the connection *)
  tt_activities : list NewAct.Row;
  tt_history : list NewHis.Row }.

Inductive event :=
| EvMkdir
| EvReadAct (r : Old.DBOldRowActivities)
| EvReadHis (r : Old.DBOldRowHistory)
| EvOpen
| EvCreate (table : string)
| EvInsAct (r : NewAct.Row)
| EvInsHis (r : NewHis.Row).

Inductive error :=
| ReadError
| TableExists (table : string)
| NoSuchTable (table : string)
| UniqueViolation
| ForeignKeyViolation
| DateError.

Inductive result (A : Type) :=
| Ok (a : A)
| Err (e : error).
Arguments Ok {A} a.
Arguments Err {A} e.

Record World := mkWorld { store : Store; trace : list event }.

Definition M (A : Type) := World -> World * result A.

Definition ret {A} (a : A) : M A := fun w => (w, Ok a).
Definition bind {A B} (m : M A) (k : A -> M B) : M B :=
  fun w => match m w with
           | (w1, Ok a) => k a w1
           | (w1, Err e) => (w1, Err e)
           end.
Definition fail {A} (e : error) : M A := fun w => (w, Err e).

Notation "x <- m ;; k" := (bind m (fun x => k)) (at level 61, m at next level, right associativity).
Notation "m ;;; k" := (bind m (fun _ => k)) (at level 61, right associativity).

Definition get_store : M Store := fun w => (w, Ok (store w)).
Definition put_store (st : Store) : M unit := fun w => (mkWorld st (trace w), Ok tt).
Definition emit (e : event) : M unit := fun w => (mkWorld (store w) (trace w ++ [e]), Ok tt).

Definition set_dcpath (st : Store) : Store :=
  mkStore true (dbpath_present st) (has_tt_activities st) (has_tt_history st)
          (foreign_keys st) (tt_activities st) (tt_history st).
Definition set_dbpath (st : Store) : Store :=
  mkStore (dcpath_present st) true (has_tt_activities st) (has_tt_history st)
          (foreign_keys st) (tt_activities st) (tt_history st).
Definition set_tables (act his : bool) (st : Store) : Store :=
  mkStore (dcpath_present st) (dbpath_present st) act his
          (foreign_keys st) (tt_activities st) (tt_history st).
Definition set_rows (acts : list NewAct.Row) (his : list NewHis.Row) (st : Store) : Store :=
  mkStore (dcpath_present st) (dbpath_present st) (has_tt_activities st) (has_tt_history st)
          (foreign_keys st) acts his.

(** [fs::create_dir_all(&dcpath).unwrap()] *)
Definition create_dir_all : M unit :=
  st <- get_store ;; emit EvMkdir ;;; put_store (set_dcpath st).

(** [for e in iter { oldact.push(e.unwrap()); }] over [SELECT * FROM activities]. *)
Fixpoint read_activities (rows : list (option Old.DBOldRowActivities))
  : M (list Old.DBOldRowActivities) :=
  match rows with
  | [] => ret []
  | None :: _ => fail ReadError
  | Some e :: rest =>
      emit (EvReadAct e) ;;; tl <- read_activities rest ;; ret (e :: tl)
  end.

(** The same over [SELECT * FROM history]. *)
Fixpoint read_history (rows : list (option Old.DBOldRowHistory))
  : M (list Old.DBOldRowHistory) :=
  match rows with
  | [] => ret []
  | None :: _ => fail ReadError
  | Some e :: rest =>
      emit (EvReadHis e) ;;; tl <- read_history rest ;; ret (e :: tl)
  end.

(** [Connection::open(dbpath)]: creates the file when it is absent. *)
Definition open_new : M unit :=
  st <- get_store ;; emit EvOpen ;;; put_store (set_dbpath st).

(** [db_new.execute(SQL_CREATE_ACT / SQL_CREATE_HIS, ())]: a plain
    [CREATE TABLE], which fails when the table exists. *)
Definition create_tt_activities : M unit :=
  st <- get_store ;; emit (EvCreate "tt_activities") ;;;
  if has_tt_activities st then fail (TableExists "tt_activities")
  else put_store (set_tables true (has_tt_history st) st).

Definition create_tt_history : M unit :=
  st <- get_store ;; emit (EvCreate "tt_history") ;;;
  if has_tt_history st then fail (TableExists "tt_history")
  else put_store (set_tables (has_tt_activities st) true st).

(** [if !dbpath_exists { ... SQL_CREATE_ACT ... SQL_CREATE_HIS ... }] *)
Definition create_tables (dbpath_exists : bool) : M unit :=
  if negb dbpath_exists then create_tt_activities ;;; create_tt_history
  else ret tt.

(** [INSERT INTO tt_activities ...]: [id INTEGER PRIMARY KEY] rejects an
    id already present. *)
Definition insert_activity (r : NewAct.Row) : M unit :=
  st <- get_store ;; emit (EvInsAct r) ;;;
  if negb (has_tt_activities st) then fail (NoSuchTable "tt_activities")
  else if existsb (fun a => NewAct.id a =? NewAct.id r) (tt_activities st)
  then fail UniqueViolation
  else put_store (set_rows (tt_activities st ++ [r]) (tt_history st) st).

(** [INSERT INTO tt_history ...]: no uniqueness on any column; the
    foreign key on [id] is checked only when the connection enforces
    foreign keys. *)
Definition insert_history (r : NewHis.Row) : M unit :=
  st <- get_store ;; emit (EvInsHis r) ;;;
  if negb (has_tt_history st) then fail (NoSuchTable "tt_history")
  else if foreign_keys st && negb (existsb (fun a => NewAct.id a =? NewHis.id r) (tt_activities st))
  then fail ForeignKeyViolation
  else put_store (set_rows (tt_activities st) (tt_history st ++ [r]) st).

Fixpoint for_each {A} (f : A -> M unit) (l : list A) : M unit :=
  match l with
  | [] => ret tt
  | x :: rest => f x ;;; for_each f rest
  end.

(** One iteration of the history loop: localise, then insert. *)
Definition history_step (tz : Local.TimeZone) (e : Old.DBOldRowHistory) : M unit :=
  match history_params tz e with
  | Some r => insert_history r
  | None => fail DateError
  end.

(** [fn main()], from the existence checks of the config folder and of
    the database file on. *)
Definition main (tz : Local.TimeZone) (src : Legacy) : M unit :=
  st0 <- get_store ;;
  let dcpath_exists := dcpath_present st0 in
  let dbpath_exists := dbpath_present st0 in
  (if negb dcpath_exists then create_dir_all else ret tt) ;;;
  oldact <- read_activities (legacy_activities src) ;;
  oldhis <- read_history (legacy_history src) ;;
  open_new ;;;
  create_tables dbpath_exists ;;;
  for_each (fun e => insert_activity (activity_params e)) oldact ;;;
  for_each (history_step tz) oldhis.

(** ** Sample inputs *)

Definition fresh_store : Store := mkStore false false false false false [] [].
Definition fresh_world : World := mkWorld fresh_store [].
Definition sample_activity : Old.DBOldRowActivities :=
  Old.mkAct 1 9 "Coding" "2020-01-01" 1 10.333333333%float.
Definition sample_history : Old.DBOldRowHistory :=
  Old.mkHis 1 2018 12 31 1 2.0000005%float "2018-12-31".
Definition sample_legacy : Legacy := mkLegacy [Some sample_activity] [Some sample_history].
Definition plus_one_hour : Local.FixedOffset := Local.mkOffset 3600 ltac:(lia).
Definition minus_five_hours : Local.FixedOffset := Local.mkOffset (-18000) ltac:(lia).

(** * Properties *)

Example sample_run :
  snd (main Local.UTC sample_legacy fresh_world) = Ok tt.
Proof. vm_compute. reflexivity. Qed.

Example sample_rerun :
  snd (main Local.UTC sample_legacy (fst (main Local.UTC sample_legacy fresh_world))) = Err UniqueViolation.
Proof. vm_compute. reflexivity. Qed.

Module Calendar.
Import Chrono Local.

Lemma days_in_month_bounds (y m : Z) : 28 <= days_in_month y m <= 31.
Proof. unfold days_in_month. repeat destruct (_ =? _); destruct (is_leap y); simpl; lia. Qed.

Lemma valid_ymd_spec (y m d : Z) :
  valid_ymd y m d = true <->
  MIN_YEAR <= y <= MAX_YEAR /\ 1 <= m <= 12 /\ 1 <= d <= days_in_month y m.
Proof.
  unfold valid_ymd. rewrite !andb_true_iff, !Z.leb_le. tauto.
Qed.

Lemma MIN_YEAR_eq : MIN_YEAR = -262144. Proof. reflexivity. Qed.
Lemma MAX_YEAR_eq : MAX_YEAR = 262143. Proof. reflexivity. Qed.

(** Stepping back a day and forward again returns the date. *)
Lemma succ_of_pred (y m d : Z) (p : NaiveDate) :
  valid_ymd y m d = true -> pred_opt (mkDate y m d) = Some p ->
  succ_opt p = Some (mkDate y m d).
Proof.
  intros Hv Hp. apply valid_ymd_spec in Hv as (Hy & Hm & Hd).
  pose proof (days_in_month_bounds y m) as Hb.
  unfold pred_opt in Hp.
  destruct (1 <? d) eqn:E1; [|destruct (1 <? m) eqn:E2].
  - apply Z.ltb_lt in E1. injection Hp as <-. unfold succ_opt.
    destruct (d - 1 <? days_in_month y m) eqn:E; [|apply Z.ltb_ge in E; lia].
    f_equal. f_equal. lia.
  - apply Z.ltb_lt in E2. apply Z.ltb_ge in E1. injection Hp as <-. unfold succ_opt.
    rewrite Z.ltb_irrefl.
    destruct (m - 1 <? 12) eqn:E; [|apply Z.ltb_ge in E; lia].
    repeat f_equal; lia.
  - apply Z.ltb_ge in E1. apply Z.ltb_ge in E2.
    assert (m = 1) by lia. assert (d = 1) by lia. subst m d.
    unfold from_ymd_opt in Hp.
    destruct (valid_ymd (y - 1) 12 31) eqn:Ev; [|discriminate].
    injection Hp as <-. unfold succ_opt.
    replace (days_in_month (y - 1) 12) with 31 by reflexivity.
    rewrite Z.ltb_irrefl. simpl (12 <? 12).
    replace (y - 1 + 1) with y by lia.
    unfold from_ymd_opt.
    replace (valid_ymd y 1 1) with true; [reflexivity|].
    symmetry. apply valid_ymd_spec. split; [exact Hy|]. lia.
Qed.

Lemma time_sub_offset_pos (o : Z) : 0 < o < 86400 -> time_sub_offset 0 o = (86400 - o, -1).
Proof.
  intros H. unfold time_sub_offset. f_equal.
  - symmetry. apply (Z.mod_unique _ _ (-1)); lia.
  - symmetry. apply (Z.div_unique _ _ _ (86400 - o)); lia.
Qed.

Lemma time_sub_offset_nonpos (o : Z) : -86400 < o <= 0 -> time_sub_offset 0 o = (- o, 0).
Proof.
  intros H. unfold time_sub_offset. f_equal.
  - symmetry. apply (Z.mod_unique _ _ 0); lia.
  - symmetry. apply (Z.div_unique _ _ _ (- o)); lia.
Qed.

Lemma time_add_offset_back (t o : Z) :
  t + o = 0 \/ t + o = 86400 -> time_add_offset t o = (0, (t + o) / 86400).
Proof.
  intros [H|H]; unfold time_add_offset; rewrite H; reflexivity.
Qed.

(** Midnight pushed to UTC by a fixed offset and brought back is the
    same local date-time. *)
Lemma local_roundtrip (nd : NaiveDate) (off : FixedOffset) (u : NaiveDateTime) :
  valid_ymd (nd_year nd) (nd_month nd) (nd_day nd) = true ->
  checked_sub_offset (mkDT nd 0) (local_minus_utc off) = Some u ->
  overflowing_add_offset u (local_minus_utc off) = mkDT nd 0.
Proof.
  destruct off as [o Ho]. destruct nd as [y m d].
  cbn [local_minus_utc nd_year nd_month nd_day]. intros Hv.
  unfold checked_sub_offset. cbn [ndt_secs ndt_date].
  destruct (Z_lt_le_dec 0 o) as [Hpos|Hneg].
  - rewrite (time_sub_offset_pos o) by lia. rewrite Z.eqb_refl.
    destruct (pred_opt (mkDate y m d)) as [p|] eqn:Hp; [|discriminate].
    intros Hu. assert (u = mkDT p (86400 - o)) as -> by congruence.
    unfold overflowing_add_offset.
    change (ndt_secs (mkDT p (86400 - o))) with (86400 - o).
    change (ndt_date (mkDT p (86400 - o))) with p.
    rewrite (time_add_offset_back (86400 - o) o) by lia.
    replace (86400 - o + o) with 86400 by lia.
    change (86400 / 86400) with 1. change (1 =? -1) with false. rewrite Z.eqb_refl.
    rewrite (succ_of_pred y m d p Hv Hp). reflexivity.
  - rewrite (time_sub_offset_nonpos o) by lia.
    change (0 =? -1) with false. change (0 =? 1) with false.
    intros Hu. assert (u = mkDT (mkDate y m d) (- o)) as -> by congruence.
    unfold overflowing_add_offset.
    change (ndt_secs (mkDT (mkDate y m d) (- o))) with (- o).
    change (ndt_date (mkDT (mkDate y m d) (- o))) with (mkDate y m d).
    rewrite (time_add_offset_back (- o) o) by lia.
    replace (- o + o) with 0 by lia. reflexivity.
Qed.

(** Whatever the timezone, a [Single] result of [with_ymd_and_hms] at
    midnight has the given civil date as its local date. *)
Lemma local_midnight_naive (tz : TimeZone) (y m d : Z) (dt : DateTime) :
  local_midnight tz y m d = Some dt ->
  valid_ymd y m d = true /\ naive_local dt = mkDT (mkDate y m d) 0.
Proof.
  unfold local_midnight, to_u32.
  destruct ((0 <=? m) && (m <? 2 ^ 32)); [|discriminate].
  destruct ((0 <=? d) && (d <? 2 ^ 32)); [|discriminate].
  unfold with_ymd_and_hms, from_ymd_opt.
  destruct (valid_ymd y m d) eqn:Hv; [|discriminate].
  unfold and_hms_opt; simpl.
  unfold from_local_datetime, and_then.
  destruct (tz (mkDT (mkDate y m d) 0)) as [|off|a b]; simpl; try discriminate.
  - destruct (checked_sub_offset (mkDT (mkDate y m d) 0) (local_minus_utc off)) as [u|] eqn:Hu;
      simpl; [|discriminate].
    intros H. injection H as <-. split; [reflexivity|].
    unfold naive_local; simpl. exact (local_roundtrip (mkDate y m d) off u Hv Hu).
  - repeat match goal with
           | |- context [match ?x with Some _ => _ | None => _ end] => destruct x
           end; discriminate.
Qed.

Lemma isoweekyear_of_civil (tz : TimeZone) (y m d v : Z) :
  isoweekyear_of tz y m d = Some v ->
  valid_ymd y m d = true /\ v = civil_iso_year y m d.
Proof.
  unfold isoweekyear_of. destruct (local_midnight tz y m d) as [dt|] eqn:H; [|discriminate].
  intros Hv. injection Hv as <-. apply local_midnight_naive in H as [Hval Hn].
  split; [exact Hval|]. unfold dt_iso_week, civil_iso_year. rewrite Hn. reflexivity.
Qed.

Lemma nisoweeks_ge (y : Z) : 52 <= nisoweeks y.
Proof. unfold nisoweeks. destruct (_ || _); lia. Qed.

Lemma iso_week_year_near (y m d : Z) :
  let v := iw_year (iso_week (mkDate y m d)) in v = y - 1 \/ v = y \/ v = y + 1.
Proof.
  unfold iso_week; cbn [nd_year].
  destruct (_ <? 1); [left; reflexivity|].
  destruct (_ <? _); simpl; lia.
Qed.

Lemma iso_week_july15 (y : Z) : iw_year (iso_week (mkDate y 7 15)) = y.
Proof.
  unfold iso_week. cbn [nd_year].
  set (wd := weekday (mkDate y 7 15)).
  assert (Hw : 0 <= wd < 7) by (apply Z.mod_pos_bound; lia).
  assert (Ho : ordinal (mkDate y 7 15) = 196 \/ ordinal (mkDate y 7 15) = 197).
  { unfold ordinal. cbn [nd_year nd_month nd_day].
    change (Z.to_nat (7 - 1)) with 6%nat. simpl days_before.
    unfold days_in_month. simpl. destruct (is_leap y); simpl; lia. }
  set (x := ordinal (mkDate y 7 15) - wd + 9).
  pose proof (Z.div_mod x 7 ltac:(lia)) as Hd.
  pose proof (Z.mod_pos_bound x 7 ltac:(lia)) as Hm.
  pose proof (nisoweeks_ge y) as Hn.
  destruct (x / 7 <? 1) eqn:E1; [apply Z.ltb_lt in E1; lia|].
  destruct (nisoweeks y <? x / 7) eqn:E2; [apply Z.ltb_lt in E2; lia|].
  reflexivity.
Qed.

Lemma valid_gregorian (y m d : Z) : valid_ymd y m d = true -> gregorian_valid y m d = true.
Proof.
  rewrite valid_ymd_spec. intros (_ & Hm & Hd). unfold gregorian_valid.
  rewrite !andb_true_iff, !Z.leb_le. lia.
Qed.

End Calendar.

(** ** The row mappings *)

Definition expected_history_row : NewHis.Row :=
  {| NewHis.id := 1; NewHis.year := 2018; NewHis.month := 12; NewHis.day := 31;
     NewHis.isoweek := 1; NewHis.isoweekyear := 2019;
     NewHis.hoursonday := 2.000001%float; NewHis.date := "2018-12-31" |}.

(** The fields of a mapped history row. *)
Lemma history_params_spec (tz : Local.TimeZone) (e : Old.DBOldRowHistory) (r : NewHis.Row) :
  history_params tz e = Some r ->
  NewHis.id r = Old.id_activity e /\
  NewHis.year r = Old.year e /\
  NewHis.month r = Old.month e /\
  NewHis.day r = Old.day e /\
  NewHis.date r = Old.date e /\
  NewHis.isoweek r = Old.weeknumber e /\
  NewHis.hoursonday r = round6 (Old.hours_on_day e) /\
  NewHis.isoweekyear r = civil_iso_year (Old.year e) (Old.month e) (Old.day e).
Proof.
  unfold history_params.
  destruct (isoweekyear_of tz (Old.year e) (Old.month e) (Old.day e)) as [v|] eqn:Hv;
    [|discriminate].
  intros H. injection H as <-. apply Calendar.isoweekyear_of_civil in Hv as [_ ->].
  simpl. repeat split.
Qed.

(** C1: every history row that is inserted carries [id_activity], [year],
    [month], [day] and [date] unchanged, [isoweek] copied from the legacy
    [weeknumber] (never recomputed), [hoursonday] as [round6] of
    [hours_on_day], and [isoweekyear] computed as the ISO week-numbering
    year of the civil date [(year, month, day)]. *)
Theorem history_params_fields (tz : Local.TimeZone) (e : Old.DBOldRowHistory) (r : NewHis.Row) :
  history_params tz e = Some r ->
  NewHis.id r = Old.id_activity e /\
  NewHis.year r = Old.year e /\
  NewHis.month r = Old.month e /\
  NewHis.day r = Old.day e /\
  NewHis.date r = Old.date e /\
  NewHis.isoweek r = Old.weeknumber e /\
  NewHis.hoursonday r = round6 (Old.hours_on_day e) /\
  NewHis.isoweekyear r = civil_iso_year (Old.year e) (Old.month e) (Old.day e).
Proof. apply history_params_spec. Qed.

Lemma history_params_fields_witness :
  exists r, history_params Local.UTC (Old.mkHis 1 2018 12 31 7 2.0000005%float "2018-12-31") = Some r /\
  NewHis.id r = 1 /\ NewHis.year r = 2018 /\ NewHis.month r = 12 /\ NewHis.day r = 31 /\
  NewHis.date r = "2018-12-31"%string /\ NewHis.isoweek r = 7 /\
  NewHis.hoursonday r = round6 2.0000005%float /\
  NewHis.isoweekyear r = civil_iso_year 2018 12 31.
Proof.
  eexists. split; [vm_compute; reflexivity|].
  apply (history_params_fields Local.UTC (Old.mkHis 1 2018 12 31 7 2.0000005%float "2018-12-31")).
  vm_compute. reflexivity.
Defined.

(** C2: an activity row is inserted with [id], [name], [added_when] (as
    [added]) and [is_activated] (as [isactive]) unchanged and [round6] of
    [hours_total] as [hourstotal]; the legacy [group_id] has no influence
    on what is inserted. *)
Theorem activity_params_fields (e : Old.DBOldRowActivities) (g : Z) :
  NewAct.id (activity_params e) = Old.id e /\
  NewAct.name (activity_params e) = Old.name e /\
  NewAct.added (activity_params e) = Old.added_when e /\
  NewAct.isactive (activity_params e) = Old.is_activated e /\
  NewAct.hourstotal (activity_params e) = round6 (Old.hours_total e) /\
  activity_params (Old.mkAct (Old.id e) g (Old.name e) (Old.added_when e)
                             (Old.is_activated e) (Old.hours_total e))
  = activity_params e.
Proof. repeat split. Qed.

(** C3: for every date it localises, the computed ISO week-numbering year
    is the calendar year, the one before or the one after; for July 15th
    it is the calendar year; 2018-12-31 gives 2019 and 2018-01-01 gives
    2018 (in every timezone where local midnight exists, for instance
    UTC). *)
Theorem isoweekyear_range_and_boundaries :
  (forall tz y m d v, isoweekyear_of tz y m d = Some v -> v = y - 1 \/ v = y \/ v = y + 1) /\
  (forall tz y v, isoweekyear_of tz y 7 15 = Some v -> v = y) /\
  (forall tz v, isoweekyear_of tz 2018 12 31 = Some v -> v = 2019) /\
  (forall tz v, isoweekyear_of tz 2018 1 1 = Some v -> v = 2018) /\
  isoweekyear_of Local.UTC 2018 12 31 = Some 2019 /\
  isoweekyear_of Local.UTC 2018 1 1 = Some 2018.
Proof.
  split; [|split; [|split; [|split; [|split]]]].
  - intros tz y m d v H. apply Calendar.isoweekyear_of_civil in H as [_ ->].
    apply Calendar.iso_week_year_near.
  - intros tz y v H. apply Calendar.isoweekyear_of_civil in H as [_ ->].
    apply Calendar.iso_week_july15.
  - intros tz v H. apply Calendar.isoweekyear_of_civil in H as [_ ->]. reflexivity.
  - intros tz v H. apply Calendar.isoweekyear_of_civil in H as [_ ->]. reflexivity.
  - vm_compute. reflexivity.
  - vm_compute. reflexivity.
Qed.

Lemma isoweekyear_range_and_boundaries_witness :
  (2018 = 2018 - 1 \/ 2018 = 2018 \/ 2018 = 2018 + 1) /\ 2026 = 2026 /\ 2019 = 2019 /\ 2018 = 2018.
Proof.
  destruct isoweekyear_range_and_boundaries as (H1 & H2 & H3 & H4 & H5 & H6).
  split; [|split; [|split]].
  - apply (H1 Local.UTC 2018 1 1 2018). vm_compute. reflexivity.
  - apply (H2 (Local.fixed_tz minus_five_hours) 2026 2026). vm_compute. reflexivity.
  - apply (H3 (Local.fixed_tz plus_one_hour) 2019). vm_compute. reflexivity.
  - apply (H4 (Local.fixed_tz plus_one_hour) 2018). vm_compute. reflexivity.
Defined.

(** C4: the legacy history row [{1, 2018, 12, 31, 1, 2.0000005,
    "2018-12-31"}] is inserted as [{1, 2018, 12, 31, 1, 2019, 2.000001,
    "2018-12-31"}] (in every timezone where that midnight exists), and the
    binary64 value [2.0000005] goes to [2.000001] under [round6]. *)
Theorem sample_history_mapping :
  round6 2.0000005%float = 2.000001%float /\
  history_params Local.UTC sample_history = Some expected_history_row /\
  (forall tz r, history_params tz sample_history = Some r -> r = expected_history_row).
Proof.
  split; [vm_compute; reflexivity|]. split; [vm_compute; reflexivity|].
  intros tz r H.
  destruct (history_params_spec tz sample_history r H) as (H1 & H2 & H3 & H4 & H5 & H6 & H7 & H8).
  destruct r; simpl in *. subst.
  unfold expected_history_row. f_equal. all: vm_compute; reflexivity.
Qed.

Lemma sample_history_mapping_witness :
  history_params (Local.fixed_tz minus_five_hours) sample_history = Some expected_history_row /\
  expected_history_row = expected_history_row.
Proof.
  split; [vm_compute; reflexivity|].
  destruct sample_history_mapping as (_ & _ & H).
  apply (H (Local.fixed_tz minus_five_hours)). vm_compute. reflexivity.
Defined.

(** C7: a history row whose [(year, month, day)] is not a date of the
    proleptic Gregorian calendar (negative, zero or too large month or
    day included) makes the localisation panic: no ISO week-numbering
    year is produced, no row is inserted and the run stops there. *)
Theorem invalid_date_aborts (tz : Local.TimeZone) (e : Old.DBOldRowHistory) :
  gregorian_valid (Old.year e) (Old.month e) (Old.day e) = false ->
  isoweekyear_of tz (Old.year e) (Old.month e) (Old.day e) = None /\
  history_params tz e = None /\
  (forall w, history_step tz e w = (w, Err DateError)).
Proof.
  intros Hg.
  assert (Hn : isoweekyear_of tz (Old.year e) (Old.month e) (Old.day e) = None).
  { destruct (isoweekyear_of tz _ _ _) as [v|] eqn:H; [|reflexivity].
    apply Calendar.isoweekyear_of_civil in H as [Hv _].
    apply Calendar.valid_gregorian in Hv. congruence. }
  assert (Hp : history_params tz e = None) by (unfold history_params; rewrite Hn; reflexivity).
  split; [exact Hn|]. split; [exact Hp|].
  intros w. unfold history_step. rewrite Hp. reflexivity.
Qed.

Lemma invalid_date_aborts_witness :
  history_params Local.UTC (Old.mkHis 1 2019 2 29 9 1%float "2019-02-29") = None /\
  history_params Local.UTC (Old.mkHis 1 2018 13 1 1 1%float "2018-13-01") = None /\
  history_params Local.UTC (Old.mkHis 1 2018 (-1) 5 1 1%float "2018--1-05") = None.
Proof.
  split; [|split].
  - apply (invalid_date_aborts Local.UTC (Old.mkHis 1 2019 2 29 9 1%float "2019-02-29")).
    vm_compute. reflexivity.
  - apply (invalid_date_aborts Local.UTC (Old.mkHis 1 2018 13 1 1 1%float "2018-13-01")).
    vm_compute. reflexivity.
  - apply (invalid_date_aborts Local.UTC (Old.mkHis 1 2018 (-1) 5 1 1%float "2018--1-05")).
    vm_compute. reflexivity.
Defined.

(** C10: whenever local midnight of the date exists (exactly once) in the
    machine's timezone, the [isoweekyear] obtained through
    [chrono::Local] is the ISO week-numbering year of the civil date
    itself, so two timezones in which it exists give the same row. *)
Theorem isoweekyear_timezone_independent :
  (forall tz y m d v, isoweekyear_of tz y m d = Some v -> v = civil_iso_year y m d) /\
  (forall tz1 tz2 e r1 r2,
      history_params tz1 e = Some r1 -> history_params tz2 e = Some r2 -> r1 = r2).
Proof.
  split.
  - intros tz y m d v H. apply Calendar.isoweekyear_of_civil in H as [_ ->]. reflexivity.
  - intros tz1 tz2 e r1 r2 H1 H2.
    destruct (history_params_spec tz1 e r1 H1) as (A1 & A2 & A3 & A4 & A5 & A6 & A7 & A8).
    destruct (history_params_spec tz2 e r2 H2) as (B1 & B2 & B3 & B4 & B5 & B6 & B7 & B8).
    destruct r1, r2; simpl in *. subst. reflexivity.
Qed.

Lemma isoweekyear_timezone_independent_witness :
  2019 = civil_iso_year 2018 12 31 /\
  history_params (Local.fixed_tz plus_one_hour) sample_history =
  history_params (Local.fixed_tz minus_five_hours) sample_history.
Proof.
  destruct isoweekyear_timezone_independent as [H1 H2]. split.
  - apply (H1 (Local.fixed_tz plus_one_hour) 2018 12 31 2019). vm_compute. reflexivity.
  - assert (E : expected_history_row = expected_history_row).
    { apply (H2 (Local.fixed_tz plus_one_hour) (Local.fixed_tz minus_five_hours) sample_history);
        vm_compute; reflexivity. }
    vm_compute. reflexivity.
Defined.

(** ** The monad and the effects of [main] *)

Inductive kind := KSetup | KRead | KSchema | KInsAct | KInsHis.

Definition kind_of (e : event) : kind :=
  match e with
  | EvMkdir => KSetup
  | EvReadAct _ | EvReadHis _ => KRead
  | EvOpen | EvCreate _ => KSchema
  | EvInsAct _ => KInsAct
  | EvInsHis _ => KInsHis
  end.

Definition is_kind (k : kind) (e : event) : Prop := kind_of e = k.

Module Effects.

Lemma bind_inv {A B} (m : M A) (k : A -> M B) (w w' : World) (r : result B) :
  bind m k w = (w', r) ->
  (exists e, m w = (w', Err e) /\ r = Err e) \/
  (exists a w1, m w = (w1, Ok a) /\ k a w1 = (w', r)).
Proof.
  unfold bind. destruct (m w) as [w1 [a|e]].
  - intros H. right. eauto.
  - intros H. injection H as <- <-. left. eauto.
Qed.

Lemma bind_ok {A B} (m : M A) (k : A -> M B) (w w1 : World) (a : A) :
  m w = (w1, Ok a) -> bind m k w = k a w1.
Proof. intros H. unfold bind. rewrite H. reflexivity. Qed.

Lemma bind_err {A B} (m : M A) (k : A -> M B) (w w1 : World) (e : error) :
  m w = (w1, Err e) -> bind m k w = (w1, Err e).
Proof. intros H. unfold bind. rewrite H. reflexivity. Qed.

Lemma bind_assoc {A B C} (m : M A) (f : A -> M B) (g : B -> M C) (w : World) :
  bind (bind m f) g w = bind m (fun a => bind (f a) g) w.
Proof. unfold bind. destruct (m w) as [w1 [a|e]]; reflexivity. Qed.

(** [m] only appends events satisfying [P] to the trace. *)
Definition emits {A} (P : event -> Prop) (m : M A) : Prop :=
  forall w w' r, m w = (w', r) -> exists t, trace w' = trace w ++ t /\ Forall P t.

Lemma emits_ret {A} P (a : A) : emits P (ret a).
Proof. intros w w' r H. injection H as <- _. exists []. rewrite app_nil_r. auto. Qed.

Lemma emits_fail {A} P (e : error) : emits P (@fail A e).
Proof. intros w w' r H. injection H as <- _. exists []. rewrite app_nil_r. auto. Qed.

Lemma emits_get P : emits P get_store.
Proof. intros w w' r H. injection H as <- _. exists []. rewrite app_nil_r. auto. Qed.

Lemma emits_put P st : emits P (put_store st).
Proof. intros w w' r H. injection H as <- _. exists []. simpl. rewrite app_nil_r. auto. Qed.

Lemma emits_emit (P : event -> Prop) e : P e -> emits P (emit e).
Proof. intros HP w w' r H. injection H as <- _. exists [e]. simpl. auto. Qed.

Lemma emits_bind {A B} P (m : M A) (k : A -> M B) :
  emits P m -> (forall a, emits P (k a)) -> emits P (bind m k).
Proof.
  intros Hm Hk w w' r H. apply bind_inv in H as [(e & H & _)|(a & w1 & H1 & H2)].
  - exact (Hm _ _ _ H).
  - destruct (Hm _ _ _ H1) as (t1 & E1 & F1). destruct (Hk a _ _ _ H2) as (t2 & E2 & F2).
    exists (t1 ++ t2). rewrite E2, E1, app_assoc. split; [reflexivity|].
    apply Forall_app. auto.
Qed.

Lemma emits_for_each {A} P (f : A -> M unit) (l : list A) :
  (forall x, emits P (f x)) -> emits P (for_each f l).
Proof.
  intros Hf. induction l as [|x l IH]; simpl.
  - apply emits_ret.
  - apply emits_bind; auto.
Qed.

Lemma emits_seq {A B} (P Q : event -> Prop) (m : M A) (k : A -> M B) (w w' : World) (r : result B) :
  emits P m -> (forall a, emits Q (k a)) -> bind m k w = (w', r) ->
  exists t1 t2, trace w' = trace w ++ t1 ++ t2 /\ Forall P t1 /\ Forall Q t2.
Proof.
  intros Hm Hk H. apply bind_inv in H as [(e & H & _)|(a & w1 & H1 & H2)].
  - destruct (Hm _ _ _ H) as (t & E & F). exists t, []. rewrite app_nil_r. auto.
  - destruct (Hm _ _ _ H1) as (t1 & E1 & F1). destruct (Hk a _ _ _ H2) as (t2 & E2 & F2).
    exists t1, t2. rewrite E2, E1, app_assoc. auto.
Qed.

Create HintDb effects.
#[local] Hint Resolve emits_ret emits_fail emits_get emits_put emits_bind emits_for_each : effects.
#[local] Hint Extern 1 (emits _ (emit _)) => (apply emits_emit; reflexivity) : effects.

Lemma emits_create_tables b : emits (is_kind KSchema) (create_tables b).
Proof.
  unfold create_tables, create_tt_activities, create_tt_history.
  destruct (negb b); eauto 8 with effects.
  apply emits_bind; [|intros _]; apply emits_bind; eauto with effects; intros st;
    apply emits_bind; eauto with effects; intros _; destruct (_ st); eauto with effects.
Qed.

Lemma emits_open : emits (is_kind KSchema) open_new.
Proof. unfold open_new. eauto 6 with effects. Qed.

Lemma emits_insert_activity r : emits (is_kind KInsAct) (insert_activity r).
Proof.
  unfold insert_activity. apply emits_bind; eauto with effects. intros st.
  apply emits_bind; eauto with effects. intros _.
  destruct (negb _); [|destruct (existsb _ _)]; eauto with effects.
Qed.

Lemma emits_history_step tz e : emits (is_kind KInsHis) (history_step tz e).
Proof.
  unfold history_step. destruct (history_params tz e) as [r|]; [|apply emits_fail].
  unfold insert_history. apply emits_bind; eauto with effects. intros st.
  apply emits_bind; eauto with effects. intros _.
  destruct (negb _); [|destruct (_ && _)]; eauto with effects.
Qed.

Lemma emits_mkdir : emits (is_kind KSetup) create_dir_all.
Proof. unfold create_dir_all. eauto 6 with effects. Qed.

Lemma emits_mkdir_if (b : bool) : emits (is_kind KSetup) (if b then create_dir_all else ret tt).
Proof. destruct b; [apply emits_mkdir|apply emits_ret]. Qed.

Lemma read_activities_spec rows w w' r :
  read_activities rows w = (w', r) ->
  store w' = store w /\
  exists t, trace w' = trace w ++ t /\ Forall (is_kind KRead) t /\
            (forall l, r = Ok l -> rows = map Some l /\ t = map EvReadAct l).
Proof.
  revert w w' r. induction rows as [|[e|] rows IH]; intros w w' r H; simpl in H.
  - injection H as <- <-. split; [reflexivity|]. exists []. rewrite app_nil_r.
    split; [reflexivity|]. split; [constructor|]. intros l E. injection E as <-. auto.
  - apply bind_inv in H as [(x & H & _)|([] & w1 & H1 & H2)]; [discriminate H|].
    injection H1 as <-. cbn [store trace] in *.
    apply bind_inv in H2 as [(x & H & ->)|(tl & w2 & H3 & H4)].
    + destruct (IH _ _ _ H) as (Es & t & Et & Ft & _). split; [rewrite Es; reflexivity|].
      exists (EvReadAct e :: t). rewrite Et. cbn [trace]. rewrite <- app_assoc. split; [reflexivity|].
      split; [constructor; [reflexivity|exact Ft]|]. discriminate.
    + injection H4 as <- <-.
      destruct (IH _ _ _ H3) as (Es & t & Et & Ft & Hl). split; [rewrite Es; reflexivity|].
      exists (EvReadAct e :: t). rewrite Et. cbn [trace]. rewrite <- app_assoc. split; [reflexivity|].
      split; [constructor; [reflexivity|exact Ft]|].
      intros l E. injection E as <-. destruct (Hl tl eq_refl) as [-> ->]. auto.
  - injection H as <- <-. split; [reflexivity|]. exists []. rewrite app_nil_r.
    split; [reflexivity|]. split; [constructor|]. discriminate.
Qed.

Lemma read_history_spec rows w w' r :
  read_history rows w = (w', r) ->
  store w' = store w /\
  exists t, trace w' = trace w ++ t /\ Forall (is_kind KRead) t /\
            (forall l, r = Ok l -> rows = map Some l /\ t = map EvReadHis l).
Proof.
  revert w w' r. induction rows as [|[e|] rows IH]; intros w w' r H; simpl in H.
  - injection H as <- <-. split; [reflexivity|]. exists []. rewrite app_nil_r.
    split; [reflexivity|]. split; [constructor|]. intros l E. injection E as <-. auto.
  - apply bind_inv in H as [(x & H & _)|([] & w1 & H1 & H2)]; [discriminate H|].
    injection H1 as <-. cbn [store trace] in *.
    apply bind_inv in H2 as [(x & H & ->)|(tl & w2 & H3 & H4)].
    + destruct (IH _ _ _ H) as (Es & t & Et & Ft & _). split; [rewrite Es; reflexivity|].
      exists (EvReadHis e :: t). rewrite Et. cbn [trace]. rewrite <- app_assoc. split; [reflexivity|].
      split; [constructor; [reflexivity|exact Ft]|]. discriminate.
    + injection H4 as <- <-.
      destruct (IH _ _ _ H3) as (Es & t & Et & Ft & Hl). split; [rewrite Es; reflexivity|].
      exists (EvReadHis e :: t). rewrite Et. cbn [trace]. rewrite <- app_assoc. split; [reflexivity|].
      split; [constructor; [reflexivity|exact Ft]|].
      intros l E. injection E as <-. destruct (Hl tl eq_refl) as [-> ->]. auto.
  - injection H as <- <-. split; [reflexivity|]. exists []. rewrite app_nil_r.
    split; [reflexivity|]. split; [constructor|]. discriminate.
Qed.

Lemma emits_read_activities rows : emits (is_kind KRead) (read_activities rows).
Proof. intros w w' r H. apply read_activities_spec in H as (_ & t & E & F & _). eauto. Qed.

End Effects.

(** ** Ordering of reads and writes *)

(** C9: in every run of [main], finished or aborted, the trace is: the
    folder creation (if any) and the reads of the legacy rows, then
    opening the new database and creating its tables, then activity
    inserts only, then history inserts only; and as soon as any of
    these destination writes happens, every legacy activity and history
    row has already been read into memory. *)
Theorem main_reads_before_writes (tz : Local.TimeZone) (src : Legacy) (w w' : World) (r : result unit) :
  main tz src w = (w', r) ->
  exists pre ws wa wh,
    trace w' = trace w ++ pre ++ ws ++ wa ++ wh /\
    Forall (fun e => kind_of e = KSetup \/ kind_of e = KRead) pre /\
    Forall (is_kind KSchema) ws /\
    Forall (is_kind KInsAct) wa /\
    Forall (is_kind KInsHis) wh /\
    (ws ++ wa ++ wh <> [] ->
     exists setup oldact oldhis,
       legacy_activities src = map Some oldact /\
       legacy_history src = map Some oldhis /\
       Forall (is_kind KSetup) setup /\
       pre = setup ++ map EvReadAct oldact ++ map EvReadHis oldhis).
Proof.
  unfold main. intros H.
  apply Effects.bind_inv in H as [(x & H & _)|(st0 & w0 & Hg & H)]; [discriminate H|].
  injection Hg as <- <-.
  apply Effects.bind_inv in H as [(x & H & ->)|([] & w1 & H1 & H)].
  { destruct (Effects.emits_mkdir_if _ _ _ _ H) as (t & E & F).
    exists t, [], [], []. rewrite !app_nil_r. split; [exact E|].
    split; [eapply Forall_impl; [|exact F]; intros e He; left; exact He|].
    split; [constructor|]. split; [constructor|]. split; [constructor|].
    intros C. contradiction C. reflexivity. }
  destruct (Effects.emits_mkdir_if _ _ _ _ H1) as (setup & Es & Fs).
  assert (Fpre : forall t, Forall (is_kind KRead) t ->
            Forall (fun e => kind_of e = KSetup \/ kind_of e = KRead) (setup ++ t)).
  { intros t Ft. apply Forall_app. split.
    - eapply Forall_impl; [|exact Fs]. intros e He. left. exact He.
    - eapply Forall_impl; [|exact Ft]. intros e He. right. exact He. }
  apply Effects.bind_inv in H as [(x & H & ->)|(oldact & w2 & H2 & H)].
  { apply Effects.read_activities_spec in H as (_ & t & E & F & _).
    exists (setup ++ t), [], [], []. rewrite !app_nil_r. rewrite E, Es, app_assoc.
    split; [reflexivity|]. split; [apply Fpre; exact F|].
    split; [constructor|]. split; [constructor|]. split; [constructor|].
    intros C. contradiction C. reflexivity. }
  apply Effects.read_activities_spec in H2 as (_ & ta & Ea & Fa & Ha).
  destruct (Ha oldact eq_refl) as [Hsa ->].
  apply Effects.bind_inv in H as [(x & H & ->)|(oldhis & w3 & H3 & H)].
  { apply Effects.read_history_spec in H as (_ & t & E & F & _).
    exists (setup ++ map EvReadAct oldact ++ t), [], [], []. rewrite !app_nil_r.
    rewrite E, Ea, Es, !app_assoc. split; [reflexivity|].
    split; [rewrite <- app_assoc; apply Fpre; apply Forall_app; auto|].
    split; [constructor|]. split; [constructor|]. split; [constructor|].
    intros C. contradiction C. reflexivity. }
  apply Effects.read_history_spec in H3 as (_ & th & Eh & Fh & Hh).
  destruct (Hh oldhis eq_refl) as [Hsh ->].
  set (pre := setup ++ map EvReadAct oldact ++ map EvReadHis oldhis).
  assert (Hpre : trace w3 = trace w ++ pre).
  { rewrite Eh, Ea, Es. unfold pre. rewrite !app_assoc. reflexivity. }
  assert (Fp : Forall (fun e => kind_of e = KSetup \/ kind_of e = KRead) pre).
  { apply Fpre. apply Forall_app; auto. }
  assert (Hfull : exists setup0 oldact0 oldhis0,
       legacy_activities src = map Some oldact0 /\ legacy_history src = map Some oldhis0 /\
       Forall (is_kind KSetup) setup0 /\
       pre = setup0 ++ map EvReadAct oldact0 ++ map EvReadHis oldhis0).
  { exists setup, oldact, oldhis. auto. }
  match type of H with
  | bind open_new (fun _ => bind (create_tables ?b) (fun _ => ?rest)) w3 = _ =>
      assert (H' : bind (bind open_new (fun _ => create_tables b)) (fun _ => rest) w3 = (w', r))
        by (rewrite Effects.bind_assoc; exact H)
  end.
  apply Effects.bind_inv in H' as [(x & H' & ->)|([] & w4 & H4 & H')].
  { assert (Hs : Effects.emits (is_kind KSchema) (bind open_new (fun _ => create_tables (dbpath_present (store w)))))
      by (apply Effects.emits_bind; [apply Effects.emits_open|intros; apply Effects.emits_create_tables]).
    destruct (Hs _ _ _ H') as (ws & E & F).
    exists pre, ws, [], []. rewrite !app_nil_r. rewrite E, Hpre, app_assoc.
    split; [reflexivity|]. split; [exact Fp|]. split; [exact F|].
    split; [constructor|]. split; [constructor|]. intros _. exact Hfull. }
  assert (Hs : Effects.emits (is_kind KSchema) (bind open_new (fun _ => create_tables (dbpath_present (store w)))))
    by (apply Effects.emits_bind; [apply Effects.emits_open|intros; apply Effects.emits_create_tables]).
  destruct (Hs _ _ _ H4) as (ws & E4 & F4).
  destruct (Effects.emits_seq (is_kind KInsAct) (is_kind KInsHis) _ _ _ _ _
              (Effects.emits_for_each _ _ oldact (fun e => Effects.emits_insert_activity (activity_params e)))
              (fun _ => Effects.emits_for_each _ _ oldhis (Effects.emits_history_step tz)) H')
    as (wa & wh & E & Fa' & Fh').
  exists pre, ws, wa, wh. rewrite E, E4, Hpre, !app_assoc.
  split; [reflexivity|]. split; [exact Fp|]. split; [exact F4|]. split; [exact Fa'|].
  split; [exact Fh'|]. intros _. exact Hfull.
Qed.

Lemma main_reads_before_writes_witness :
  exists pre ws wa wh,
    trace (fst (main Local.UTC sample_legacy fresh_world)) = [] ++ pre ++ ws ++ wa ++ wh /\
    Forall (fun e => kind_of e = KSetup \/ kind_of e = KRead) pre /\
    Forall (is_kind KSchema) ws /\ Forall (is_kind KInsAct) wa /\ Forall (is_kind KInsHis) wh /\
    (ws ++ wa ++ wh <> [] ->
     exists setup oldact oldhis,
       legacy_activities sample_legacy = map Some oldact /\
       legacy_history sample_legacy = map Some oldhis /\
       Forall (is_kind KSetup) setup /\
       pre = setup ++ map EvReadAct oldact ++ map EvReadHis oldhis).
Proof.
  apply (main_reads_before_writes Local.UTC sample_legacy fresh_world
           (fst (main Local.UTC sample_legacy fresh_world))
           (snd (main Local.UTC sample_legacy fresh_world))).
  vm_compute. reflexivity.
Defined.

(** ** The destination after a run *)

Module Store_facts.
Import Effects.

(** What a step never takes back: the folder, the file, the activities
    table and its rows. *)
Definition grows (st st' : Store) : Prop :=
  (dcpath_present st = true -> dcpath_present st' = true) /\
  (dbpath_present st = true -> dbpath_present st' = true) /\
  (has_tt_activities st = true -> has_tt_activities st' = true) /\
  incl (tt_activities st) (tt_activities st').

Definition mono {A} (m : M A) : Prop :=
  forall w w' r, m w = (w', r) -> grows (store w) (store w').

Lemma grows_refl st : grows st st.
Proof. unfold grows. repeat split; auto. apply incl_refl. Qed.

Lemma grows_trans a b c : grows a b -> grows b c -> grows a c.
Proof.
  unfold grows. intros (A1 & A2 & A3 & A4) (B1 & B2 & B3 & B4).
  repeat split; auto. eapply incl_tran; eauto.
Qed.

Lemma mono_bind {A B} (m : M A) (k : A -> M B) :
  mono m -> (forall a, mono (k a)) -> mono (bind m k).
Proof.
  intros Hm Hk w w' r H. apply bind_inv in H as [(e & H & _)|(a & w1 & H1 & H2)].
  - exact (Hm _ _ _ H).
  - eapply grows_trans; [exact (Hm _ _ _ H1)|exact (Hk a _ _ _ H2)].
Qed.

Lemma mono_ret {A} (a : A) : mono (ret a).
Proof. intros w w' r H. injection H as <- _. apply grows_refl. Qed.

Lemma mono_for_each {A} (f : A -> M unit) l : (forall x, mono (f x)) -> mono (for_each f l).
Proof.
  intros Hf. induction l as [|x l IH]; simpl; [apply mono_ret|].
  apply mono_bind; auto.
Qed.

Ltac run_op H :=
  unfold bind, get_store, emit, put_store, fail, ret in H; cbn beta iota in H;
  repeat match type of H with
         | context [if ?b then _ else _] => destruct b
         end;
  injection H; intros; subst.

Lemma mono_insert_activity r : mono (insert_activity r).
Proof.
  intros w w' x H. unfold insert_activity in H. run_op H; try apply grows_refl.
  unfold grows; cbn; repeat split; auto. intros y Hy. apply in_or_app. auto.
Qed.

Lemma mono_history_step tz e : mono (history_step tz e).
Proof.
  intros w w' x H. unfold history_step in H.
  destruct (history_params tz e) as [r|]; [|injection H as <- _; apply grows_refl].
  unfold insert_history in H. run_op H; try apply grows_refl.
  unfold grows; cbn; repeat split; auto. apply incl_refl.
Qed.

Lemma mono_create_tables b : mono (create_tables b).
Proof.
  intros w w' x H. unfold create_tables in H. destruct (negb b).
  - unfold create_tt_activities, create_tt_history in H. run_op H; try apply grows_refl;
      unfold grows; cbn; repeat split; auto; apply incl_refl.
  - injection H as <- _. apply grows_refl.
Qed.

Lemma insert_activity_ok r w w' :
  insert_activity r w = (w', Ok tt) ->
  has_tt_activities (store w') = true /\ In r (tt_activities (store w')).
Proof.
  intros H. unfold insert_activity in H.
  unfold bind, get_store, emit, put_store, fail, ret in H; cbn beta iota in H.
  destruct (has_tt_activities (store w)) eqn:Ht; [|discriminate].
  destruct (existsb _ _); [discriminate|]. injection H as <-. cbn.
  split; [exact Ht|]. apply in_or_app. right. left. reflexivity.
Qed.

Lemma activity_loop_ok l w w' :
  for_each (fun e => insert_activity (activity_params e)) l w = (w', Ok tt) ->
  forall a, In a l ->
  has_tt_activities (store w') = true /\ In (activity_params a) (tt_activities (store w')).
Proof.
  revert w. induction l as [|x l IH]; intros w H a Ha; [destruct Ha|].
  simpl in H. apply bind_inv in H as [(e & H & E)|([] & w1 & H1 & H2)]; [discriminate E|].
  destruct Ha as [<-|Ha]; [|exact (IH _ H2 a Ha)].
  destruct (insert_activity_ok _ _ _ H1) as [T I].
  destruct (mono_for_each _ l (fun e => mono_insert_activity (activity_params e)) _ _ _ H2)
    as (_ & _ & G3 & G4).
  auto.
Qed.

Lemma read_activities_map l w :
  read_activities (map Some l) w = (mkWorld (store w) (trace w ++ map EvReadAct l), Ok l).
Proof.
  revert w. induction l as [|x l IH]; intros w; simpl.
  - rewrite app_nil_r. destruct w; reflexivity.
  - unfold bind at 1. unfold emit at 1. rewrite bind_ok with (w1 := mkWorld (store w) ((trace w ++ [EvReadAct x]) ++ map EvReadAct l)) (a := l).
    + rewrite <- app_assoc. reflexivity.
    + rewrite IH. reflexivity.
Qed.

Lemma read_history_map l w :
  read_history (map Some l) w = (mkWorld (store w) (trace w ++ map EvReadHis l), Ok l).
Proof.
  revert w. induction l as [|x l IH]; intros w; simpl.
  - rewrite app_nil_r. destruct w; reflexivity.
  - unfold bind at 1. unfold emit at 1. rewrite bind_ok with (w1 := mkWorld (store w) ((trace w ++ [EvReadHis x]) ++ map EvReadHis l)) (a := l).
    + rewrite <- app_assoc. reflexivity.
    + rewrite IH. reflexivity.
Qed.

Lemma mkdir_step_dcpath (w w' : World) :
  (if negb (dcpath_present (store w)) then create_dir_all else ret tt) w = (w', Ok tt) ->
  dcpath_present (store w') = true.
Proof.
  destruct (dcpath_present (store w)) eqn:E; simpl.
  - intros H. injection H as <-. exact E.
  - unfold create_dir_all. intros H. run_op H. reflexivity.
Qed.

Lemma open_new_ok (w : World) :
  open_new w = (mkWorld (set_dbpath (store w)) (trace w ++ [EvOpen]), Ok tt).
Proof. reflexivity. Qed.

Lemma set_dbpath_id (st : Store) : dbpath_present st = true -> set_dbpath st = st.
Proof. destruct st; simpl. intros ->. reflexivity. Qed.

Lemma main_ok_facts tz src w0 w1 :
  main tz src w0 = (w1, Ok tt) ->
  exists oldact oldhis,
    legacy_activities src = map Some oldact /\ legacy_history src = map Some oldhis /\
    dcpath_present (store w1) = true /\ dbpath_present (store w1) = true /\
    (forall a, In a oldact ->
       has_tt_activities (store w1) = true /\ In (activity_params a) (tt_activities (store w1))).
Proof.
  unfold main. intros H.
  apply bind_inv in H as [(x & H & E)|(st0 & w' & Hg & H)]; [discriminate E|].
  injection Hg as <- <-.
  apply bind_inv in H as [(x & H & E)|([] & wA & HA & H)]; [discriminate E|].
  pose proof (mkdir_step_dcpath _ _ HA) as DcA.
  apply bind_inv in H as [(x & H & E)|(oldact & wB & HB & H)]; [discriminate E|].
  apply read_activities_spec in HB as (SB & tB & EB & FB & HlB).
  destruct (HlB oldact eq_refl) as [Hsa TB].
  apply bind_inv in H as [(x & H & E)|(oldhis & wC & HC & H)]; [discriminate E|].
  apply read_history_spec in HC as (SC & tC & EC & FC & HlC).
  destruct (HlC oldhis eq_refl) as [Hsh TC].
  apply bind_inv in H as [(x & H & E)|([] & wD & HD & H)]; [discriminate E|].
  rewrite open_new_ok in HD. injection HD as <-.
  apply bind_inv in H as [(x & H & E)|([] & wE & HE & H)]; [discriminate E|].
  apply bind_inv in H as [(x & H & E)|([] & wF & HF & H)]; [discriminate E|].
  exists oldact, oldhis. split; [exact Hsa|]. split; [exact Hsh|].
  pose proof (mono_create_tables _ _ _ _ HE) as GE.
  pose proof (mono_for_each _ oldact (fun e => mono_insert_activity (activity_params e)) _ _ _ HF) as GF.
  pose proof (mono_for_each _ oldhis (mono_history_step tz) _ _ _ H) as GH.
  pose proof (grows_trans _ _ _ GE (grows_trans _ _ _ GF GH)) as (G1 & G2 & _).
  cbn [store] in G1, G2.
  split; [apply G1; cbn; rewrite SC, SB; exact DcA|].
  split; [apply G2; reflexivity|].
  intros a Ha. destruct (activity_loop_ok _ _ _ HF a Ha) as [T I].
  destruct GH as (_ & _ & G3 & G4). auto.
Qed.

Lemma insert_activity_dup r w :
  has_tt_activities (store w) = true ->
  existsb (fun a => NewAct.id a =? NewAct.id r) (tt_activities (store w)) = true ->
  insert_activity r w = (mkWorld (store w) (trace w ++ [EvInsAct r]), Err UniqueViolation).
Proof.
  intros Ht Hx. unfold insert_activity, bind, get_store, emit, fail. cbn beta iota.
  cbn [store]. rewrite Ht, Hx. reflexivity.
Qed.

Lemma in_existsb_id r l : In r l -> existsb (fun a => NewAct.id a =? NewAct.id r) l = true.
Proof. intros H. apply existsb_exists. exists r. split; [exact H|]. apply Z.eqb_refl. Qed.

Lemma create_tables_existing (w : World) : create_tables true w = (w, Ok tt).
Proof. reflexivity. Qed.

End Store_facts.

(** C6: a second run of [main] against the destination left by a
    successful first run, with at least one legacy activity, stops at
    its first destination insert: the insert of the first activity,
    rejected by the primary key, with the destination store unchanged.
    An insert into [tt_history] of a row already present, on the other
    hand, succeeds and appends a second copy. *)
Theorem rerun_fails_on_first_activity (tz : Local.TimeZone) (src : Legacy) (w0 w1 : World)
    (a0 : Old.DBOldRowActivities) (rest : list (option Old.DBOldRowActivities)) :
  main tz src w0 = (w1, Ok tt) ->
  legacy_activities src = Some a0 :: rest ->
  (exists t,
     main tz src w1 =
       (mkWorld (store w1) (trace w1 ++ t ++ [EvInsAct (activity_params a0)]), Err UniqueViolation) /\
     Forall (fun e => kind_of e <> KInsAct /\ kind_of e <> KInsHis) t) /\
  (forall (w : World) (r : NewHis.Row),
     has_tt_history (store w) = true ->
     In r (tt_history (store w)) ->
     (foreign_keys (store w) = true ->
      existsb (fun a => NewAct.id a =? NewHis.id r) (tt_activities (store w)) = true) ->
     insert_history r w =
       (mkWorld (set_rows (tt_activities (store w)) (tt_history (store w) ++ [r]) (store w))
                (trace w ++ [EvInsHis r]), Ok tt)).
Proof.
  intros H Ha.
  destruct (Store_facts.main_ok_facts _ _ _ _ H) as (oldact & oldhis & Ea & Eh & Dc & Db & Hin).
  destruct oldact as [|a1 rest1]; [rewrite Ha in Ea; discriminate Ea|].
  assert (a1 = a0) as -> by (rewrite Ha in Ea; injection Ea; auto).
  destruct (Hin a0 (or_introl eq_refl)) as [Tact Iact].
  split.
  - exists (map EvReadAct (a0 :: rest1) ++ map EvReadHis oldhis ++ [EvOpen]). split.
    + unfold main.
      rewrite (Effects.bind_ok _ _ w1 w1 (store w1)) by reflexivity. cbv beta zeta.
      rewrite Dc. cbn [negb].
      rewrite (Effects.bind_ok _ _ w1 w1 tt) by reflexivity.
      rewrite Ea, (Effects.bind_ok _ _ _ _ _ (Store_facts.read_activities_map _ w1)).
      rewrite Eh, (Effects.bind_ok _ _ _ _ _ (Store_facts.read_history_map _ _)).
      rewrite (Effects.bind_ok _ _ _ _ _ (Store_facts.open_new_ok _)).
      cbn [store trace]. rewrite (Store_facts.set_dbpath_id _ Db), Db.
      rewrite (Effects.bind_ok _ _ _ _ _ (Store_facts.create_tables_existing _)).
      cbn [for_each].
      rewrite (Effects.bind_err _ _ _ _ _
                 (Effects.bind_err _ _ _ _ _
                    (Store_facts.insert_activity_dup _ (mkWorld (store w1) _) Tact (Store_facts.in_existsb_id _ _ Iact)))).
      cbn [store trace]. rewrite <- !app_assoc. reflexivity.
    + apply Forall_forall. intros e He.
      apply in_app_or in He as [He|He].
      * apply in_map_iff in He as (x & <- & _). cbn. split; discriminate.
      * apply in_app_or in He as [He|[<-|[]]].
        -- apply in_map_iff in He as (x & <- & _). cbn. split; discriminate.
        -- cbn. split; discriminate.
  - intros w r Th _ Fk.
    unfold insert_history, bind, get_store, emit, put_store, fail. cbn [store trace].
    rewrite Th. cbn [negb].
    destruct (foreign_keys (store w)) eqn:F; [rewrite (Fk eq_refl)|]; reflexivity.
Qed.

Lemma rerun_fails_on_first_activity_witness :
  (exists t,
     main Local.UTC sample_legacy (fst (main Local.UTC sample_legacy fresh_world)) =
       (mkWorld (store (fst (main Local.UTC sample_legacy fresh_world)))
                (trace (fst (main Local.UTC sample_legacy fresh_world)) ++ t ++
                 [EvInsAct (activity_params sample_activity)]), Err UniqueViolation) /\
     Forall (fun e => kind_of e <> KInsAct /\ kind_of e <> KInsHis) t) /\
  (forall (w : World) (r : NewHis.Row),
     has_tt_history (store w) = true ->
     In r (tt_history (store w)) ->
     (foreign_keys (store w) = true ->
      existsb (fun a => NewAct.id a =? NewHis.id r) (tt_activities (store w)) = true) ->
     insert_history r w =
       (mkWorld (set_rows (tt_activities (store w)) (tt_history (store w) ++ [r]) (store w))
                (trace w ++ [EvInsHis r]), Ok tt)).
Proof.
  apply (rerun_fails_on_first_activity Local.UTC sample_legacy fresh_world
           (fst (main Local.UTC sample_legacy fresh_world)) sample_activity []).
  - vm_compute. reflexivity.
  - reflexivity.
Defined.

(** ** The schema step *)

(** A destination file that already exists but holds neither table. *)
Definition existing_empty_store : Store := mkStore true true false false false [] [].
Definition existing_empty_world : World := mkWorld existing_empty_store [].

(** C5, as stated, fails: on a destination file that exists without the
    two tables, the schema step does nothing, so the tables are still
    missing afterwards, and the run then aborts on its first activity
    insert. *)
Lemma create_tables_not_total :
  ~ (forall w : World,
       dbpath_present (store w) = true ->
       has_tt_activities (store (fst (create_tables (dbpath_present (store w)) w))) = true /\
       has_tt_history (store (fst (create_tables (dbpath_present (store w)) w))) = true) /\
  create_tables (dbpath_present existing_empty_store) existing_empty_world = (existing_empty_world, Ok tt) /\
  snd (main Local.UTC sample_legacy existing_empty_world) = Err (NoSuchTable "tt_activities").
Proof.
  split; [|split; [reflexivity|vm_compute; reflexivity]].
  intros H. destruct (H existing_empty_world eq_refl) as [A _]. discriminate A.
Qed.

(** ** Runs of [main] against a given destination *)

Module Run_facts.
Import Effects Store_facts.

(** The destination once the config folder exists and [Connection::open]
    has opened (or created) the database file. *)
Definition opened (st : Store) : Store :=
  mkStore true true (has_tt_activities st) (has_tt_history st)
          (foreign_keys st) (tt_activities st) (tt_history st).

Lemma existsb_id (i : Z) (l : list NewAct.Row) :
  existsb (fun a => NewAct.id a =? i) l = true <-> In i (map NewAct.id l).
Proof.
  rewrite existsb_exists, in_map_iff. split.
  - intros (a & Ha & E). apply Z.eqb_eq in E. eauto.
  - intros (a & E & Ha). exists a. split; [exact Ha|]. apply Z.eqb_eq. exact E.
Qed.

Lemma bind_ext {A B} (m : M A) (k1 k2 : A -> M B) w :
  (forall a w1, k1 a w1 = k2 a w1) -> bind m k1 w = bind m k2 w.
Proof. intros H. unfold bind. destruct (m w) as [w1 [a|e]]; auto. Qed.

Lemma for_each_cons {A} (f : A -> M unit) x l w :
  for_each f (x :: l) w = bind (f x) (fun _ => for_each f l) w.
Proof. reflexivity. Qed.

Lemma for_each_app {A} (f : A -> M unit) l1 l2 w :
  for_each f (l1 ++ l2) w = bind (for_each f l1) (fun _ => for_each f l2) w.
Proof.
  revert w. induction l1 as [|x l1 IH]; intros w; [reflexivity|].
  cbn [app for_each]. rewrite bind_assoc.
  apply bind_ext. intros [] w1. apply IH.
Qed.

Lemma insert_activity_new r w :
  has_tt_activities (store w) = true ->
  existsb (fun a => NewAct.id a =? NewAct.id r) (tt_activities (store w)) = false ->
  insert_activity r w =
  (mkWorld (set_rows (tt_activities (store w) ++ [r]) (tt_history (store w)) (store w))
           (trace w ++ [EvInsAct r]), Ok tt).
Proof.
  intros Ht Hx. unfold insert_activity, bind, get_store, emit, put_store, fail. cbn beta iota.
  cbn [store trace]. rewrite Ht, Hx. reflexivity.
Qed.

Lemma insert_history_new r w :
  has_tt_history (store w) = true ->
  foreign_keys (store w) && negb (existsb (fun a => NewAct.id a =? NewHis.id r) (tt_activities (store w))) = false ->
  insert_history r w =
  (mkWorld (set_rows (tt_activities (store w)) (tt_history (store w) ++ [r]) (store w))
           (trace w ++ [EvInsHis r]), Ok tt).
Proof.
  intros Ht Hx. unfold insert_history, bind, get_store, emit, put_store, fail. cbn beta iota.
  cbn [store trace]. rewrite Ht, Hx. reflexivity.
Qed.

Lemma act_loop_ok l w :
  has_tt_activities (store w) = true ->
  NoDup (map NewAct.id (tt_activities (store w) ++ map activity_params l)) ->
  exists t, for_each (fun e => insert_activity (activity_params e)) l w =
    (mkWorld (set_rows (tt_activities (store w) ++ map activity_params l) (tt_history (store w)) (store w)) t,
     Ok tt).
Proof.
  revert w. induction l as [|x l IH]; intros w Ht Hn.
  - exists (trace w). cbn. rewrite app_nil_r. destruct w as [[] tr]; reflexivity.
  - rewrite for_each_cons.
    assert (Hx : existsb (fun a => NewAct.id a =? NewAct.id (activity_params x)) (tt_activities (store w)) = false).
    { destruct (existsb _ _) eqn:E; [|reflexivity]. apply existsb_id in E.
      cbn [map] in Hn. rewrite map_app in Hn. cbn [map] in Hn.
      apply NoDup_remove_2 in Hn. exfalso. apply Hn. apply in_or_app. left. exact E. }
    rewrite (bind_ok _ _ _ _ tt (insert_activity_new _ _ Ht Hx)).
    destruct (IH (mkWorld (set_rows (tt_activities (store w) ++ [activity_params x]) (tt_history (store w)) (store w))
                          (trace w ++ [EvInsAct (activity_params x)]))) as (t & Et).
    + exact Ht.
    + cbn [store]. destruct (store w); cbn in *. rewrite <- app_assoc. exact Hn.
    + exists t. rewrite Et. cbn [store]. destruct (store w); cbn. rewrite <- app_assoc. reflexivity.
Qed.

Lemma act_loop_dup l w :
  has_tt_activities (store w) = true ->
  NoDup (map NewAct.id (tt_activities (store w))) ->
  ~ NoDup (map NewAct.id (tt_activities (store w) ++ map activity_params l)) ->
  exists w', for_each (fun e => insert_activity (activity_params e)) l w = (w', Err UniqueViolation) /\
    tt_history (store w') = tt_history (store w).
Proof.
  revert w. induction l as [|x l IH]; intros w Ht Hn Hd.
  - exfalso. apply Hd. cbn [map]. rewrite app_nil_r. exact Hn.
  - rewrite for_each_cons.
    destruct (existsb (fun a => NewAct.id a =? NewAct.id (activity_params x)) (tt_activities (store w))) eqn:Hx.
    + exists (mkWorld (store w) (trace w ++ [EvInsAct (activity_params x)])).
      rewrite (bind_err _ _ _ _ _ (insert_activity_dup _ _ Ht Hx)). auto.
    + rewrite (bind_ok _ _ _ _ tt (insert_activity_new _ _ Ht Hx)).
      destruct (IH (mkWorld (set_rows (tt_activities (store w) ++ [activity_params x]) (tt_history (store w)) (store w))
                            (trace w ++ [EvInsAct (activity_params x)]))) as (w' & E & H).
      * exact Ht.
      * cbn [store]. destruct (store w) as [dc db ha hh fk acts his]; cbn in *.
        rewrite map_app. apply NoDup_app; [exact Hn|repeat constructor; intros []|].
        intros a Ha [<-|[]]. apply existsb_id in Ha. cbn in Ha. congruence.
      * cbn [store]. destruct (store w); cbn in *. rewrite <- app_assoc. exact Hd.
      * exists w'. split; [exact E|]. rewrite H. destruct (store w); reflexivity.
Qed.

Lemma his_loop_ok tz l rows w :
  has_tt_history (store w) = true ->
  Forall2 (fun e r => history_params tz e = Some r) l rows ->
  (foreign_keys (store w) = false \/
   Forall (fun r => In (NewHis.id r) (map NewAct.id (tt_activities (store w)))) rows) ->
  exists t, for_each (history_step tz) l w =
    (mkWorld (set_rows (tt_activities (store w)) (tt_history (store w) ++ rows) (store w)) t, Ok tt).
Proof.
  intros Ht Hf. revert w Ht. induction Hf as [|e r l rows He Hf IH]; intros w Ht Hk.
  - exists (trace w). rewrite app_nil_r. destruct w as [[] tr]; reflexivity.
  - rewrite for_each_cons.
    assert (Hs : history_step tz e w = insert_history r w)
      by (unfold history_step; rewrite He; reflexivity).
    assert (Hx : foreign_keys (store w) &&
                 negb (existsb (fun a => NewAct.id a =? NewHis.id r) (tt_activities (store w))) = false).
    { destruct Hk as [-> | Hk]; [reflexivity|].
      inversion Hk as [|? ? Hr _]; subst. apply existsb_id in Hr. rewrite Hr. apply andb_false_r. }
    rewrite (bind_ok _ _ _ _ tt (eq_trans Hs (insert_history_new _ _ Ht Hx))).
    destruct (IH (mkWorld (set_rows (tt_activities (store w)) (tt_history (store w) ++ [r]) (store w))
                          (trace w ++ [EvInsHis r]))) as (t & Et).
    + destruct (store w); exact Ht.
    + destruct (store w); cbn in *. destruct Hk as [Hk|Hk]; [left; exact Hk|right].
      inversion Hk; subst; assumption.
    + exists t. rewrite Et. destruct (store w); cbn. rewrite <- app_assoc. reflexivity.
Qed.

Lemma his_loop_date tz pre e post rows w :
  has_tt_history (store w) = true ->
  Forall2 (fun e r => history_params tz e = Some r) pre rows ->
  (foreign_keys (store w) = false \/
   Forall (fun r => In (NewHis.id r) (map NewAct.id (tt_activities (store w)))) rows) ->
  history_params tz e = None ->
  exists w', for_each (history_step tz) (pre ++ e :: post) w = (w', Err DateError) /\
    tt_activities (store w') = tt_activities (store w) /\
    tt_history (store w') = tt_history (store w) ++ rows.
Proof.
  intros Ht Hf Hk He. destruct (his_loop_ok tz pre rows w Ht Hf Hk) as (t & E).
  rewrite for_each_app, (bind_ok _ _ _ _ tt E), for_each_cons.
  eexists. split.
  - unfold bind, history_step. rewrite He. reflexivity.
  - destruct (store w); split; reflexivity.
Qed.

(** [main] up to the reads: the folder step, then both reads. *)
Lemma main_after_setup tz src w :
  exists w1,
    main tz src w =
    bind (read_activities (legacy_activities src)) (fun oldact =>
    bind (read_history (legacy_history src)) (fun oldhis =>
    bind open_new (fun _ =>
    bind (create_tables (dbpath_present (store w))) (fun _ =>
    bind (for_each (fun e => insert_activity (activity_params e)) oldact) (fun _ =>
    for_each (history_step tz) oldhis))))) w1 /\
    store w1 = (if dcpath_present (store w) then store w else set_dcpath (store w)).
Proof.
  unfold main. rewrite (bind_ok get_store _ w w (store w) eq_refl). cbv beta zeta.
  destruct (dcpath_present (store w)) eqn:Ed.
  - exists w. split; reflexivity.
  - exists (mkWorld (set_dcpath (store w)) (trace w ++ [EvMkdir])). split; reflexivity.
Qed.

Lemma main_prefix tz src w oldact oldhis :
  legacy_activities src = map Some oldact -> legacy_history src = map Some oldhis ->
  exists t, main tz src w =
    bind (create_tables (dbpath_present (store w))) (fun _ =>
    bind (for_each (fun e => insert_activity (activity_params e)) oldact) (fun _ =>
    for_each (history_step tz) oldhis)) (mkWorld (opened (store w)) t).
Proof.
  intros Ha Hh. destruct (main_after_setup tz src w) as (w1 & E & S). rewrite E, Ha, Hh.
  rewrite (bind_ok _ _ _ _ _ (read_activities_map oldact w1)).
  rewrite (bind_ok _ _ _ _ _ (read_history_map oldhis _)).
  rewrite (bind_ok _ _ _ _ _ (open_new_ok _)).
  cbn [store trace]. rewrite S.
  replace (set_dbpath (if dcpath_present (store w) then store w else set_dcpath (store w)))
    with (opened (store w)) by (destruct (store w) as [[] db ha hh fk acts his]; reflexivity).
  eexists. reflexivity.
Qed.

Definition schema_ok (st : Store) : Prop :=
  (dbpath_present st = false /\ has_tt_activities st = false /\ has_tt_history st = false) \/
  (dbpath_present st = true /\ has_tt_activities st = true /\ has_tt_history st = true).

(** The destination with both tables, as left by the schema step. *)
Definition ready (st : Store) : Store :=
  mkStore true true true true (foreign_keys st) (tt_activities st) (tt_history st).

Lemma schema_step (st : Store) t :
  schema_ok st ->
  exists t', create_tables (dbpath_present st) (mkWorld (opened st) t) = (mkWorld (ready st) t', Ok tt).
Proof.
  destruct st as [dc db ha hh fk acts his]; unfold schema_ok; cbn.
  intros [(-> & -> & ->)|(-> & -> & ->)]; eexists; reflexivity.
Qed.

End Run_facts.

(** A destination file holding [tt_activities] but not [tt_history]. *)
Definition activities_only_store : Store := mkStore true true true false false [] [].
Definition activities_only_world : World := mkWorld activities_only_store [].

Module Schema_facts.
Import Effects.

Definition no_create (e : event) : Prop := forall tbl, e <> EvCreate tbl.

Lemma emits_weaken {A} (P Q : event -> Prop) (m : M A) :
  (forall e, P e -> Q e) -> emits P m -> emits Q m.
Proof.
  intros HPQ Hm w w' r H. destruct (Hm _ _ _ H) as (t & E & F).
  exists t. split; [exact E|]. eapply Forall_impl; eauto.
Qed.

Lemma kind_no_create k e : k <> KSchema -> is_kind k e -> no_create e.
Proof. intros Hk He tbl ->. unfold is_kind in He. cbn in He. congruence. Qed.

Lemma emits_open_nc : emits no_create open_new.
Proof.
  unfold open_new. apply emits_bind; [apply emits_get|intros st].
  apply emits_bind; [apply emits_emit; intros tbl; discriminate|intros _; apply emits_put].
Qed.

Lemma emits_read_history rows : emits (is_kind KRead) (read_history rows).
Proof. intros w w' r H. apply read_history_spec in H as (_ & t & E & F & _). eauto. Qed.

Ltac weaken_kind lem := eapply emits_weaken; [|apply lem]; intros ?; apply kind_no_create; discriminate.

(** On a destination file present at the start, a run of [main],
    finished or aborted, issues no [CREATE TABLE]. *)
Lemma main_existing_no_create tz src w w' r :
  dbpath_present (store w) = true -> main tz src w = (w', r) ->
  exists t, trace w' = trace w ++ t /\ Forall no_create t.
Proof.
  intros Hd H. unfold main in H. rewrite (bind_ok _ _ w w (store w) eq_refl) in H.
  cbv beta zeta in H. rewrite Hd in H.
  match type of H with
  | ?m w = _ => enough (Hm : emits no_create m) by exact (Hm _ _ _ H)
  end.
  apply emits_bind; [weaken_kind emits_mkdir_if|intros _].
  apply emits_bind; [weaken_kind emits_read_activities|intros oldact].
  apply emits_bind; [weaken_kind emits_read_history|intros oldhis].
  apply emits_bind; [apply emits_open_nc|intros _].
  apply emits_bind; [change (create_tables true) with (ret (A := unit) tt); apply emits_ret|intros _].
  apply emits_bind; [apply emits_for_each; intros x; weaken_kind emits_insert_activity|intros _].
  apply emits_for_each; intros x. weaken_kind emits_history_step.
Qed.

Lemma insert_history_missing r w :
  has_tt_history (store w) = false ->
  insert_history r w = (mkWorld (store w) (trace w ++ [EvInsHis r]), Err (NoSuchTable "tt_history")).
Proof.
  intros Ht. unfold insert_history, bind, get_store, emit, fail. cbn beta iota.
  cbn [store]. rewrite Ht. reflexivity.
Qed.

End Schema_facts.

(** C5 (amended): the schema step issues the two [CREATE TABLE]
    statements only when the destination file did not exist at the
    start of the run.  On a destination without the tables it then
    creates both and succeeds.  On a pre-existing destination the step
    does nothing, and no run of [main] issues any [CREATE TABLE]; if a
    table is missing there, the run stops at the first insert into it
    with "no such table": at the first activity when [tt_activities] is
    missing (no row stored changes), or, when only [tt_history] is
    missing, at the first history row once every activity is inserted. *)
Theorem create_tables_fresh_or_noop :
  (forall w : World,
     has_tt_activities (store w) = false ->
     has_tt_history (store w) = false ->
     create_tables false w =
       (mkWorld (set_tables true true (store w))
                (trace w ++ [EvCreate "tt_activities"; EvCreate "tt_history"]), Ok tt)) /\
  (forall w : World, create_tables true w = (w, Ok tt)) /\
  (forall tz src (w w' : World) r,
     dbpath_present (store w) = true -> main tz src w = (w', r) ->
     exists t, trace w' = trace w ++ t /\ forall tbl, ~ In (EvCreate tbl) t) /\
  (forall tz src (w : World) a oldact oldhis,
     legacy_activities src = map Some (a :: oldact) ->
     legacy_history src = map Some oldhis ->
     dbpath_present (store w) = true ->
     has_tt_activities (store w) = false ->
     exists w', main tz src w = (w', Err (NoSuchTable "tt_activities")) /\
       tt_activities (store w') = tt_activities (store w) /\
       tt_history (store w') = tt_history (store w)) /\
  (forall tz src (w : World) oldact e oldhis r,
     legacy_activities src = map Some oldact ->
     legacy_history src = map Some (e :: oldhis) ->
     dbpath_present (store w) = true ->
     has_tt_activities (store w) = true ->
     has_tt_history (store w) = false ->
     NoDup (map NewAct.id (tt_activities (store w) ++ map activity_params oldact)) ->
     history_params tz e = Some r ->
     exists w', main tz src w = (w', Err (NoSuchTable "tt_history")) /\
       tt_activities (store w') = tt_activities (store w) ++ map activity_params oldact /\
       tt_history (store w') = tt_history (store w)).
Proof.
  split; [|split; [reflexivity|split; [|split]]].
  - intros [[dc db ha hh fk acts his] tr]. cbn [store has_tt_activities has_tt_history].
    intros -> ->. unfold create_tables, create_tt_activities, create_tt_history. cbn.
    rewrite <- app_assoc. reflexivity.
  - intros tz src w w' r Hd H.
    destruct (Schema_facts.main_existing_no_create tz src w w' r Hd H) as (t & E & F).
    exists t. split; [exact E|]. intros tbl Hin.
    rewrite Forall_forall in F. exact (F _ Hin tbl eq_refl).
  - intros tz src w a oldact oldhis Ha Hh Hd Ht.
    destruct (Run_facts.main_prefix tz src w (a :: oldact) oldhis Ha Hh) as (t & E). rewrite E, Hd.
    unfold Run_facts.opened. rewrite Ht.
    eexists. split; [reflexivity|split; reflexivity].
  - intros tz src w oldact e oldhis r Ha Hh Hd Hta Hth Hn He.
    destruct (Run_facts.main_prefix tz src w oldact (e :: oldhis) Ha Hh) as (t0 & E). rewrite E, Hd.
    rewrite (Effects.bind_ok _ _ _ _ tt (Store_facts.create_tables_existing _)). cbv beta.
    destruct (Run_facts.act_loop_ok oldact (mkWorld (Run_facts.opened (store w)) t0) Hta Hn) as (t1 & E1).
    rewrite (Effects.bind_ok _ _ _ _ _ E1). cbv beta. rewrite Run_facts.for_each_cons.
    match goal with
    | |- context [bind (history_step tz e) _ ?W] =>
        assert (Hs : history_step tz e W = insert_history r W)
          by (unfold history_step; rewrite He; reflexivity);
        rewrite (Effects.bind_err _ _ _ _ _ (eq_trans Hs (Schema_facts.insert_history_missing r W Hth)))
    end.
    eexists. split; [reflexivity|split; reflexivity].
Qed.

Lemma create_tables_fresh_or_noop_witness :
  create_tables false fresh_world =
    (mkWorld (set_tables true true fresh_store) [EvCreate "tt_activities"; EvCreate "tt_history"], Ok tt) /\
  create_tables true existing_empty_world = (existing_empty_world, Ok tt) /\
  (exists t, trace (fst (main Local.UTC sample_legacy activities_only_world)) = trace activities_only_world ++ t /\
             forall tbl, ~ In (EvCreate tbl) t) /\
  (exists w', main Local.UTC sample_legacy existing_empty_world = (w', Err (NoSuchTable "tt_activities")) /\
     tt_activities (store w') = tt_activities (store existing_empty_world) /\
     tt_history (store w') = tt_history (store existing_empty_world)) /\
  (exists w', main Local.UTC sample_legacy activities_only_world = (w', Err (NoSuchTable "tt_history")) /\
     tt_activities (store w') = tt_activities (store activities_only_world) ++ map activity_params [sample_activity] /\
     tt_history (store w') = tt_history (store activities_only_world)).
Proof.
  destruct create_tables_fresh_or_noop as (A & B & C & D & F).
  split; [|split; [|split; [|split]]].
  - apply (A fresh_world); reflexivity.
  - apply B.
  - apply (C Local.UTC sample_legacy activities_only_world _ (snd (main Local.UTC sample_legacy activities_only_world))).
    + reflexivity.
    + apply surjective_pairing.
  - apply (D Local.UTC sample_legacy existing_empty_world sample_activity [] [sample_history]); reflexivity.
  - apply (F Local.UTC sample_legacy activities_only_world [sample_activity] sample_history [] expected_history_row);
      try reflexivity.
    cbn. constructor; [intros []|constructor].
Defined.

(** ** [round6] on moderate values

    [round6 v] is [fl(fl(n) / 1e6)] where [n] is [v * 1e6] rounded to an
    integer.  For [|v| <= 2^29] the integer [n] is below [2^50]; the
    quotient [fl(n / 1e6)] then multiplied back by [1e6] lies within
    [2^(digits n - 52) < 1/2] of [n], so [f64::round] gives [n] again.
    The proofs below follow [SpecFloat]'s rounding ([binary_round_aux],
    [shr_fexp], [round_nearest_even]) on the operands that occur here. *)

Module Round6_facts.

Definition fexp64 (e : Z) : Z := Z.max (e - 53) (-1074).

Lemma fexp_eq e : fexp 53 1024 e = fexp64 e.
Proof. reflexivity. Qed.

Lemma digits2_pos_spec (p : positive) :
  2 ^ (Z.pos (digits2_pos p) - 1) <= Z.pos p < 2 ^ Z.pos (digits2_pos p).
Proof.
  assert (Hs : forall q, Z.pos (PosDef.Pos.succ q) = Z.pos q + 1)
    by (intros q; exact (Pos2Z.inj_succ q)).
  induction p as [p IH|p IH|]; cbn [digits2_pos].
  - rewrite Hs, (Pos2Z.inj_xI p). set (k := Z.pos (digits2_pos p)) in *.
    assert (0 < k) by (unfold k; lia).
    replace (k + 1 - 1) with k by lia.
    assert (E1 : 2 ^ (k + 1) = 2 * 2 ^ k) by (rewrite Z.pow_add_r by lia; lia).
    assert (E2 : 2 ^ k = 2 * 2 ^ (k - 1))
      by (rewrite <- Z.pow_succ_r by lia; f_equal; lia).
    lia.
  - rewrite Hs, (Pos2Z.inj_xO p). set (k := Z.pos (digits2_pos p)) in *.
    assert (0 < k) by (unfold k; lia).
    replace (k + 1 - 1) with k by lia.
    assert (E1 : 2 ^ (k + 1) = 2 * 2 ^ k) by (rewrite Z.pow_add_r by lia; lia).
    assert (E2 : 2 ^ k = 2 * 2 ^ (k - 1))
      by (rewrite <- Z.pow_succ_r by lia; f_equal; lia).
    lia.
  - vm_compute. split; [intro H; discriminate H | reflexivity].
Qed.

Lemma Zdigits2_spec (m : Z) : 0 < m -> 2 ^ (Zdigits2 m - 1) <= m < 2 ^ Zdigits2 m.
Proof. destruct m as [|p|p]; try lia. intros _. apply digits2_pos_spec. Qed.

Lemma Zdigits2_nonneg (m : Z) : 0 <= m -> 0 <= Zdigits2 m.
Proof. destruct m; cbn; lia. Qed.

Lemma Zdigits2_pos (m : Z) : 0 < m -> 1 <= Zdigits2 m.
Proof. destruct m as [|p|p]; cbn; lia. Qed.

Lemma Zdigits2_lt (m : Z) : 0 <= m -> m < 2 ^ Zdigits2 m.
Proof.
  intros H. destruct (Z.eq_dec m 0) as [->|]; [cbn; lia|].
  apply Zdigits2_spec; lia.
Qed.

Lemma pow2_lt_lt (a b : Z) : 0 <= a -> 0 <= b -> 2 ^ a < 2 ^ b -> a < b.
Proof.
  intros Ha Hb H. destruct (Z.lt_ge_cases a b) as [|Hl]; [assumption|].
  pose proof (Z.pow_le_mono_r 2 b a ltac:(lia) Hl). lia.
Qed.

Lemma Zdigits2_unique (m k : Z) : 1 <= k -> 2 ^ (k - 1) <= m < 2 ^ k -> Zdigits2 m = k.
Proof.
  intros Hk [H1 H2].
  assert (0 < m) by (pose proof (Z.pow_pos_nonneg 2 (k - 1) ltac:(lia) ltac:(lia)); lia).
  destruct (Zdigits2_spec m H) as [D1 D2].
  assert (1 <= Zdigits2 m) by (destruct m; cbn; lia).
  assert (Zdigits2 m - 1 < k) by (apply pow2_lt_lt; lia).
  assert (k - 1 < Zdigits2 m) by (apply pow2_lt_lt; lia).
  lia.
Qed.

(** The exact value [N / D] (times [2^e]) lies in [[m, m+1)], on the side
    of the midpoint that [l] says. *)
Definition loc_ok (m : Z) (l : location) (N D : Z) : Prop :=
  D * m <= N < D * (m + 1) /\
  match l with
  | loc_Exact => N = D * m
  | loc_Inexact c => D * m < N /\ Z.compare (2 * N) (D * (2 * m + 1)) = c
  end.

Definition rec_ok (r : shr_record) (N D : Z) : Prop :=
  loc_ok (shr_m r) (loc_of_shr_record r) N D.

Lemma rec_of_loc (m : Z) (l : location) :
  shr_m (shr_record_of_loc m l) = m /\ loc_of_shr_record (shr_record_of_loc m l) = l.
Proof. destruct l as [|[| |]]; split; reflexivity. Qed.

Lemma shr_1_eq (m : Z) (r s : bool) :
  0 <= m -> shr_1 (Build_shr_record m r s) = Build_shr_record (Z.div2 m) (Z.odd m) (r || s).
Proof. intros H. destruct m as [|[p|p|]|p]; try reflexivity. lia. Qed.

Lemma shr_1_ok (r : shr_record) (N D : Z) :
  0 <= shr_m r -> 0 < D -> rec_ok r N D ->
  0 <= shr_m (shr_1 r) /\ rec_ok (shr_1 r) N (2 * D).
Proof.
  destruct r as [m rb sb]. unfold rec_ok. cbn [shr_m]. intros Hm HD H.
  rewrite shr_1_eq by exact Hm. cbn [shr_m].
  pose proof (Z.div2_odd m) as Em. remember (Z.div2 m) as h eqn:Eh. clear Eh.
  destruct (Z.odd m) eqn:Eo; cbn [Z.b2z] in Em; clear Eo;
  (split; [lia|]);
  destruct rb, sb; cbn [orb loc_of_shr_record] in *; unfold loc_ok in *;
  destruct H as [[B1 B2] H]; subst m;
  repeat match goal with
         | H : _ /\ _ |- _ => destruct H
         | H : Z.compare _ _ = Lt |- _ => apply Z.compare_lt_iff in H
         | H : Z.compare _ _ = Gt |- _ => apply Z.compare_gt_iff in H
         | H : Z.compare _ _ = Eq |- _ => apply Z.compare_eq_iff in H
         end;
  (split; [nia|]);
  try (split; [nia|]);
  first [ apply Z.compare_lt_iff; nia
        | apply Z.compare_gt_iff; nia
        | apply Z.compare_eq_iff; nia
        | nia ].
Qed.

Lemma iter_pos_nat {A} (f : A -> A) (p : positive) (x : A) :
  iter_pos f p x = Nat.iter (Pos.to_nat p) f x.
Proof.
  revert x. induction p as [p IH|p IH|]; intros x; cbn [iter_pos].
  - rewrite IH, IH, Pos2Nat.inj_xI, <- Nat.iter_succ_r, <- Nat.iter_add.
    f_equal. lia.
  - rewrite IH, IH, Pos2Nat.inj_xO, <- Nat.iter_add. f_equal. lia.
  - reflexivity.
Qed.

Lemma shr_iter_ok (n : nat) (r : shr_record) (N D : Z) :
  0 <= shr_m r -> 0 < D -> rec_ok r N D ->
  0 <= shr_m (Nat.iter n shr_1 r) /\ rec_ok (Nat.iter n shr_1 r) N (2 ^ Z.of_nat n * D).
Proof.
  intros Hm HD H. induction n as [|n IH].
  - cbn [Nat.iter]. change (2 ^ Z.of_nat 0) with 1. rewrite Z.mul_1_l. auto.
  - destruct IH as [IH1 IH2]. cbn [Nat.iter].
    assert (0 < 2 ^ Z.of_nat n * D) by (pose proof (Z.pow_pos_nonneg 2 (Z.of_nat n) ltac:(lia) ltac:(lia)); nia).
    destruct (shr_1_ok _ _ _ IH1 H0 IH2) as [A B]. split; [exact A|].
    rewrite Nat2Z.inj_succ, Z.pow_succ_r by lia. rewrite <- Z.mul_assoc. exact B.
Qed.

Lemma rne_ok (m : Z) (l : location) (N D : Z) :
  0 < D -> loc_ok m l N D ->
  D * (2 * round_nearest_even m l - 1) <= 2 * N <= D * (2 * round_nearest_even m l + 1) /\
  m <= round_nearest_even m l <= m + 1.
Proof.
  intros HD [[B1 B2] H]. destruct l as [|[| |]]; cbn [round_nearest_even].
  - subst N. split; nia.
  - destruct H as [H1 H2]. rewrite Z.compare_eq_iff in H2.
    destruct (Z.even m); split; nia.
  - destruct H as [H1 H2]. rewrite Z.compare_lt_iff in H2. split; nia.
  - destruct H as [H1 H2]. rewrite Z.compare_gt_iff in H2. split; nia.
Qed.

(** The float of sign [sx] with magnitude [m * 2^e], [0 <= m < 2^53]. *)
Definition mk_float (sx : bool) (m e : Z) : spec_float :=
  match m with
  | Z0 => S754_zero sx
  | Zpos p => if e <=? 971 then S754_finite sx p e else S754_infinity sx
  | Zneg _ => S754_nan
  end.

Definition finalize (sx : bool) (m e : Z) : spec_float :=
  if m =? 2 ^ 53 then mk_float sx (2 ^ 52) (e + 1) else mk_float sx m e.

Lemma round_tail (sx : bool) (mr e1 : Z) :
  0 <= mr <= 2 ^ 53 -> -1074 <= e1 ->
  (let '(mrs'', e'') := shr_fexp 53 1024 mr e1 loc_Exact in
   match shr_m mrs'' with
   | Z0 => S754_zero sx
   | Zpos m => if Z.leb e'' (Z.sub 1024 53) then S754_finite sx m e'' else S754_infinity sx
   | _ => S754_nan
   end) = finalize sx mr e1.
Proof.
  intros Hm He. unfold shr_fexp, finalize. rewrite fexp_eq.
  destruct (Z.eq_dec mr (2 ^ 53)) as [->|Hne].
  - rewrite Z.eqb_refl.
    replace (Zdigits2 (2 ^ 53)) with 54 by reflexivity.
    replace (fexp64 (54 + e1) - e1) with 1 by (unfold fexp64; lia).
    reflexivity.
  - replace (mr =? 2 ^ 53) with false by (symmetry; apply Z.eqb_neq; exact Hne).
    assert (Zdigits2 mr <= 53).
    { destruct (Z.eq_dec mr 0) as [->|Hz]; [cbn; lia|].
      destruct (Zdigits2_spec mr ltac:(lia)) as [D1 _].
      assert (1 <= Zdigits2 mr) by (apply Zdigits2_pos; lia).
      assert (Zdigits2 mr - 1 < 53) by (apply pow2_lt_lt; lia). lia. }
    assert (Hs : fexp64 (Zdigits2 mr + e1) - e1 <= 0) by (unfold fexp64; lia).
    destruct (fexp64 (Zdigits2 mr + e1) - e1) as [|p|p]; [|lia|];
      cbn [shr shr_m shr_record_of_loc]; destruct mr; reflexivity.
Qed.

Lemma round_aux_spec (sx : bool) (mx ex : Z) (lx : location) (N D : Z) :
  0 <= mx -> 0 < D -> loc_ok mx lx N D ->
  exists mr,
    D * 2 ^ (Z.max ex (fexp64 (Zdigits2 mx + ex)) - ex) * (2 * mr - 1) <= 2 * N <=
    D * 2 ^ (Z.max ex (fexp64 (Zdigits2 mx + ex)) - ex) * (2 * mr + 1) /\
    0 <= mr <= 2 ^ 53 /\
    binary_round_aux 53 1024 sx mx ex lx = finalize sx mr (Z.max ex (fexp64 (Zdigits2 mx + ex))).
Proof.
  intros Hm HD H.
  pose proof (Zdigits2_lt mx Hm) as Dlt.
  pose proof (Zdigits2_nonneg mx Hm) as Dnn.
  destruct (rec_of_loc mx lx) as [R1 R2].
  assert (H0 : rec_ok (shr_record_of_loc mx lx) N D) by (unfold rec_ok; rewrite R1, R2; exact H).
  unfold binary_round_aux.
  destruct (shr_fexp 53 1024 mx ex lx) as [rec' e'] eqn:Esh.
  unfold shr_fexp in Esh. rewrite fexp_eq in Esh.
  set (d := Zdigits2 mx) in *.
  destruct (fexp64 (d + ex) - ex) as [|p|p] eqn:Es; cbn [shr] in Esh; injection Esh as <- <-.
  - (* no shift *)
    replace (Z.max ex (fexp64 (d + ex))) with ex by lia.
    rewrite Z.sub_diag, Z.pow_0_r, Z.mul_1_r.
    rewrite R1, R2.
    destruct (rne_ok mx lx N D HD H) as [E1 E2].
    exists (round_nearest_even mx lx). split; [exact E1|].
    assert (d <= 53) by (unfold fexp64 in Es; lia).
    assert (2 ^ d <= 2 ^ 53) by (apply Z.pow_le_mono_r; lia).
    split; [lia|]. apply round_tail; [lia|unfold fexp64 in Es; lia].
  - (* shift right by p *)
    replace (Z.max ex (fexp64 (d + ex))) with (ex + Z.pos p) by lia.
    replace (ex + Z.pos p - ex) with (Z.pos p) by lia.
    rewrite iter_pos_nat.
    destruct (shr_iter_ok (Pos.to_nat p) _ N D ltac:(rewrite R1; exact Hm) HD H0) as [A B].
    rewrite positive_nat_Z in B.
    set (r1 := Nat.iter (Pos.to_nat p) shr_1 (shr_record_of_loc mx lx)) in *.
    unfold rec_ok in B.
    assert (0 < 2 ^ Z.pos p) by (apply Z.pow_pos_nonneg; lia).
    assert (HD' : 0 < 2 ^ Z.pos p * D) by nia.
    destruct (rne_ok _ _ _ _ HD' B) as [E1 E2].
    exists (round_nearest_even (shr_m r1) (loc_of_shr_record r1)).
    split; [rewrite (Z.mul_comm D); exact E1|].
    (* the shifted mantissa has at most 53 digits *)
    assert (d <= 53 + Z.pos p) by (unfold fexp64 in Es; lia).
    assert (2 ^ d <= 2 ^ 53 * 2 ^ Z.pos p)
      by (rewrite <- Z.pow_add_r by lia; apply Z.pow_le_mono_r; lia).
    destruct B as [[B1 B2] _]. destruct H as [[Hl1 Hl2] _].
    assert (C1 : D * (2 ^ Z.pos p * shr_m r1) < D * (mx + 1)) by nia.
    apply Z.mul_lt_mono_pos_l in C1; [|exact HD].
    assert (C2 : 2 ^ Z.pos p * shr_m r1 < 2 ^ Z.pos p * 2 ^ 53) by lia.
    apply Z.mul_lt_mono_pos_l in C2; [|lia].
    split; [lia|]. apply round_tail; [lia|unfold fexp64 in Es; lia].
  - (* negative: no shift *)
    replace (Z.max ex (fexp64 (d + ex))) with ex by lia.
    rewrite Z.sub_diag, Z.pow_0_r, Z.mul_1_r.
    rewrite R1, R2.
    destruct (rne_ok mx lx N D HD H) as [E1 E2].
    exists (round_nearest_even mx lx). split; [exact E1|].
    assert (d <= 53) by (unfold fexp64 in Es; lia).
    assert (2 ^ d <= 2 ^ 53) by (apply Z.pow_le_mono_r; lia).
    split; [lia|]. apply round_tail; [lia|unfold fexp64 in Es; lia].
Qed.

Lemma finalize_zero (sx : bool) (e : Z) : finalize sx 0 e = S754_zero sx.
Proof. reflexivity. Qed.

Lemma finalize_finite (sx : bool) (mr e1 : Z) :
  0 < mr <= 2 ^ 53 -> e1 + 1 <= 971 ->
  exists (m : positive) (dl : Z),
    finalize sx mr e1 = S754_finite sx m (e1 + dl) /\ 0 <= dl <= 1 /\
    Z.pos m * 2 ^ dl = mr /\ Z.pos m < 2 ^ 53.
Proof.
  intros Hm He. unfold finalize.
  destruct (Z.eq_dec mr (2 ^ 53)) as [->|Hne].
  - rewrite Z.eqb_refl. exists (2 ^ 52)%positive, 1. split; [|split; [lia|split; reflexivity]].
    unfold mk_float. replace (e1 + 1 <=? 971) with true by (symmetry; apply Z.leb_le; lia).
    reflexivity.
  - replace (mr =? 2 ^ 53) with false by (symmetry; apply Z.eqb_neq; exact Hne).
    destruct mr as [|m|m]; try lia.
    exists m, 0. rewrite Z.add_0_r. unfold mk_float.
    replace (e1 <=? 971) with true by (symmetry; apply Z.leb_le; lia).
    split; [reflexivity|]. split; [lia|]. split; [rewrite Z.pow_0_r; lia|lia].
Qed.

Lemma iter_xO (p k : positive) : Z.pos (Pos.iter xO p k) = Z.pos p * 2 ^ Z.pos k.
Proof.
  induction k as [|k IH] using Pos.peano_ind.
  - change (Pos.iter xO p 1) with (xO p). rewrite (Pos2Z.inj_xO p). ring.
  - rewrite Pos.iter_succ, Pos2Z.inj_succ, Z.pow_succ_r by lia.
    rewrite (Pos2Z.inj_xO (Pos.iter xO p k)), IH. ring.
Qed.

Lemma round_aux_exact53 (sx : bool) (mz : positive) (e : Z) :
  2 ^ 52 <= Z.pos mz < 2 ^ 53 -> -1074 <= e <= 971 ->
  binary_round_aux 53 1024 sx (Z.pos mz) e loc_Exact = S754_finite sx mz e.
Proof.
  intros Hm He.
  destruct (round_aux_spec sx (Z.pos mz) e loc_Exact (Z.pos mz) 1 ltac:(lia) ltac:(lia)
              ltac:(unfold loc_ok; lia)) as (mr & B & Hr & E).
  rewrite E.
  assert (Hdz : Zdigits2 (Z.pos mz) = 53) by (apply Zdigits2_unique; lia).
  rewrite Hdz in B |- *.
  replace (Z.max e (fexp64 (53 + e))) with e in B |- * by (unfold fexp64; lia).
  rewrite Z.sub_diag, Z.pow_0_r in B.
  assert (mr = Z.pos mz) as -> by lia.
  unfold finalize. replace (Z.pos mz =? 2 ^ 53) with false by (symmetry; apply Z.eqb_neq; lia).
  unfold mk_float. replace (e <=? 971) with true by (symmetry; apply Z.leb_le; lia).
  reflexivity.
Qed.

(** [binary_normalize] of a nonzero integer below [2^53]: exact. *)
Lemma normalize_int (s : bool) (n : Z) :
  0 < n < 2 ^ 53 ->
  binary_normalize 53 1024 (if s then - n else n) 0 s =
  S754_finite s (Z.to_pos (n * 2 ^ (53 - Zdigits2 n))) (Zdigits2 n - 53).
Proof.
  intros Hn.
  destruct (Zdigits2_spec n ltac:(lia)) as [D1 D2].
  assert (Hd1 : 1 <= Zdigits2 n) by (apply Zdigits2_pos; lia).
  assert (Hd2 : Zdigits2 n <= 53) by (assert (Zdigits2 n - 1 < 53) by (apply pow2_lt_lt; lia); lia).
  set (d := Zdigits2 n) in *.
  assert (Hmz : 2 ^ 52 <= n * 2 ^ (53 - d) < 2 ^ 53).
  { replace (2 ^ 53) with (2 ^ d * 2 ^ (53 - d)) by (rewrite <- Z.pow_add_r by lia; f_equal; lia).
    replace (2 ^ 52) with (2 ^ (d - 1) * 2 ^ (53 - d)) by (rewrite <- Z.pow_add_r by lia; f_equal; lia).
    assert (0 < 2 ^ (53 - d)) by (apply Z.pow_pos_nonneg; lia). nia. }
  assert (Hb : binary_round 53 1024 s (Z.to_pos n) 0 =
               S754_finite s (Z.to_pos (n * 2 ^ (53 - d))) (d - 53)).
  { unfold binary_round. rewrite fexp_eq, Z.add_0_r.
    change (Z.pos (digits2_pos (Z.to_pos n))) with (Zdigits2 (Z.pos (Z.to_pos n))).
    rewrite Z2Pos.id by lia. fold d.
    replace (fexp64 d) with (d - 53) by (unfold fexp64; lia).
    unfold shl_align. rewrite Z.sub_0_r.
    destruct (d - 53) as [|dd|dd] eqn:Ed.
    - replace (53 - d) with 0 in Hmz |- * by lia. rewrite Z.pow_0_r, Z.mul_1_r in *.
      apply round_aux_exact53; rewrite ?Z2Pos.id by lia; lia.
    - lia.
    - replace (Pos.iter xO (Z.to_pos n) dd) with (Z.to_pos (n * 2 ^ (53 - d))).
      + apply round_aux_exact53; rewrite ?Z2Pos.id by lia; lia.
      + apply Pos2Z.inj. rewrite iter_xO, !Z2Pos.id by lia. f_equal. f_equal. lia. }
  destruct s; cbn [binary_normalize].
  - destruct n as [|pn|pn]; try lia. exact Hb.
  - destruct n as [|pn|pn]; try lia. exact Hb.
Qed.

Lemma valid_53 (s : bool) (m : positive) (e : Z) :
  2 ^ 52 <= Z.pos m < 2 ^ 53 -> -1074 <= e <= 971 ->
  SpecFloat.valid_binary 53 1024 (S754_finite s m e) = true.
Proof.
  intros Hm He. unfold SpecFloat.valid_binary, bounded, canonical_mantissa.
  change (Z.pos (digits2_pos m)) with (Zdigits2 (Z.pos m)).
  rewrite (Zdigits2_unique (Z.pos m) 53) by lia.
  rewrite fexp_eq. unfold fexp64.
  replace (Z.max (53 + e - 53) (-1074)) with e by lia.
  rewrite Z.eqb_refl. cbn [andb]. apply Z.leb_le. lia.
Qed.

Lemma new_location_ok (D N : Z) :
  0 < D -> Z.even D = true -> loc_ok (N / D) (new_location D (N mod D)) N D.
Proof.
  intros HD He. unfold new_location. rewrite He. unfold new_location_even.
  pose proof (Z.div_mod N D ltac:(lia)) as E.
  pose proof (Z.mod_pos_bound N D HD) as B.
  set (q := N / D) in *. set (r := N mod D) in *.
  unfold loc_ok. split; [nia|].
  destruct (r =? 0) eqn:Er.
  - apply Z.eqb_eq in Er. lia.
  - apply Z.eqb_neq in Er. split; [nia|].
    rewrite (Z.compare_sub (2 * N)), (Z.compare_sub (2 * r) D). f_equal. lia.
Qed.

Definition M6 : Z := 8589934592000000.

Lemma M6_bounds : 2 ^ 52 <= M6 < 2 ^ 53.
Proof. unfold M6. split; vm_compute; congruence. Qed.

Lemma div_core (m1 : positive) (e1 : Z) :
  Zdigits2 (Z.pos m1) = 53 -> -1001 <= e1 ->
  SFdiv_core_binary 53 1024 (Z.pos m1) e1 M6 (-33) =
  ((Z.pos m1 * 2 ^ 53) / M6, e1 - 20, new_location M6 ((Z.pos m1 * 2 ^ 53) mod M6)).
Proof.
  intros Hd He. unfold SFdiv_core_binary. rewrite Hd.
  replace (Zdigits2 M6) with 53 by reflexivity.
  rewrite fexp_eq. unfold fexp64.
  replace (Z.min (Z.max (53 + e1 - (53 + -33) - 53) (-1074)) (e1 - -33)) with (e1 - 20) by lia.
  replace (e1 - -33 - (e1 - 20)) with 53 by lia.
  rewrite Z.shiftl_mul_pow2 by lia.
  unfold Z.div, Z.modulo. destruct (Z.div_eucl (Z.pos m1 * 2 ^ 53) M6). reflexivity.
Qed.

Lemma rha_bounds (m : positive) (k : Z) :
  0 < k ->
  2 ^ k * (2 * F64.round_half_away m k - 1) <= 2 * Z.pos m <= 2 ^ k * (2 * F64.round_half_away m k + 1).
Proof.
  intros Hk. unfold F64.round_half_away.
  assert (HK : 0 < 2 ^ k) by (apply Z.pow_pos_nonneg; lia).
  pose proof (Z.div_mod (Z.pos m) (2 ^ k) ltac:(lia)) as E.
  pose proof (Z.mod_pos_bound (Z.pos m) (2 ^ k) HK) as B.
  set (q := Z.pos m / 2 ^ k) in *. set (r := Z.pos m mod 2 ^ k) in *.
  destruct (2 ^ k <=? 2 * r) eqn:Ec; [apply Z.leb_le in Ec|apply Z.leb_gt in Ec]; nia.
Qed.

Lemma rha_unique (m : positive) (k n : Z) :
  0 < k ->
  2 ^ k * (2 * n - 1) < 2 * Z.pos m < 2 ^ k * (2 * n + 1) ->
  F64.round_half_away m k = n.
Proof.
  intros Hk H. pose proof (rha_bounds m k Hk) as B.
  assert (HK : 0 < 2 ^ k) by (apply Z.pow_pos_nonneg; lia).
  set (r := F64.round_half_away m k) in *.
  assert (r < n + 1).
  { assert (2 ^ k * (2 * r) < 2 ^ k * (2 * n + 2)) by nia.
    apply Z.mul_lt_mono_pos_l in H0; lia. }
  assert (n - 1 < r).
  { assert (2 ^ k * (2 * n - 2) < 2 ^ k * (2 * r)) by nia.
    apply Z.mul_lt_mono_pos_l in H1; lia. }
  lia.
Qed.

Lemma million_sf : Prim2SF million = S754_finite false 8589934592000000 (-33).
Proof. reflexivity. Qed.

Lemma of_parts_sf (s : bool) (n : Z) :
  0 < n < 2 ^ 53 ->
  Prim2SF (F64.of_parts s n) =
  S754_finite s (Z.to_pos (n * 2 ^ (53 - Zdigits2 n))) (Zdigits2 n - 53).
Proof.
  intros Hn. unfold F64.of_parts, F64.prec, F64.emax. rewrite normalize_int by exact Hn.
  apply Prim2SF_SF2Prim.
  destruct (Zdigits2_spec n ltac:(lia)) as [D1 D2].
  assert (Hd1 : 1 <= Zdigits2 n) by (apply Zdigits2_pos; lia).
  assert (Hd2 : Zdigits2 n <= 53) by (assert (Zdigits2 n - 1 < 53) by (apply pow2_lt_lt; lia); lia).
  set (d := Zdigits2 n) in *.
  assert (Hmz : 2 ^ 52 <= n * 2 ^ (53 - d) < 2 ^ 53).
  { replace (2 ^ 53) with (2 ^ d * 2 ^ (53 - d)) by (rewrite <- Z.pow_add_r by lia; f_equal; lia).
    replace (2 ^ 52) with (2 ^ (d - 1) * 2 ^ (53 - d)) by (rewrite <- Z.pow_add_r by lia; f_equal; lia).
    assert (0 < 2 ^ (53 - d)) by (apply Z.pow_pos_nonneg; lia). nia. }
  apply valid_53; rewrite ?Z2Pos.id by lia; lia.
Qed.

Lemma digits_n_bounds (n : Z) :
  0 < n < 2 ^ 50 ->
  1 <= Zdigits2 n <= 50 /\ 2 ^ (Zdigits2 n - 1) <= n < 2 ^ Zdigits2 n.
Proof.
  intros Hn. destruct (Zdigits2_spec n ltac:(lia)) as [D1 D2].
  assert (Hd1 : 1 <= Zdigits2 n) by (apply Zdigits2_pos; lia).
  assert (Zdigits2 n - 1 < 50) by (apply pow2_lt_lt; lia). lia.
Qed.

Lemma div_step (s : bool) (n : Z) :
  0 < n < 2 ^ 50 ->
  exists mr p,
    Prim2SF (F64.of_parts s n / million) = finalize s mr (Zdigits2 n - 73 + p) /\
    0 <= p <= 1 /\
    M6 * 2 ^ p * (2 * mr - 1) <= 2 * (n * 2 ^ (106 - Zdigits2 n)) <= M6 * 2 ^ p * (2 * mr + 1) /\
    0 <= mr <= 2 ^ 53.
Proof.
  intros Hn. destruct (digits_n_bounds n Hn) as [Hd [D1 D2]].
  rewrite div_spec, of_parts_sf, million_sf by lia.
  unfold SF64div. cbn [SFdiv]. change prec with 53. change emax with 1024.
  set (d := Zdigits2 n) in *.
  set (m1 := n * 2 ^ (53 - d)).
  assert (Hm1 : 2 ^ 52 <= m1 < 2 ^ 53).
  { unfold m1.
    replace (2 ^ 53) with (2 ^ d * 2 ^ (53 - d)) by (rewrite <- Z.pow_add_r by lia; f_equal; lia).
    replace (2 ^ 52) with (2 ^ (d - 1) * 2 ^ (53 - d)) by (rewrite <- Z.pow_add_r by lia; f_equal; lia).
    assert (0 < 2 ^ (53 - d)) by (apply Z.pow_pos_nonneg; lia). nia. }
  change 8589934592000000 with M6.
  rewrite div_core by (rewrite ?Z2Pos.id by lia; first [apply Zdigits2_unique; lia | lia]).
  rewrite Z2Pos.id by lia.
  cbv beta iota. rewrite Bool.xorb_false_r.
  set (N := m1 * 2 ^ 53).
  assert (HN : n * 2 ^ (106 - d) = N).
  { unfold N, m1. rewrite <- Z.mul_assoc, <- Z.pow_add_r by lia. f_equal. f_equal. lia. }
  rewrite HN.
  pose proof M6_bounds as HM.
  assert (HNb : 2 ^ 105 <= N < 2 ^ 106).
  { unfold N. replace (2 ^ 105) with (2 ^ 52 * 2 ^ 53) by reflexivity.
    replace (2 ^ 106) with (2 ^ 53 * 2 ^ 53) by reflexivity. nia. }
  pose proof (Z.div_mod N M6 ltac:(lia)) as EN.
  pose proof (Z.mod_pos_bound N M6 ltac:(lia)) as BN.
  set (q := N / M6) in *.
  assert (Hq : 2 ^ 52 <= q < 2 ^ 54).
  { split.
    - assert (2 ^ 105 < (q + 1) * 2 ^ 53) by nia.
      replace (2 ^ 105) with (2 ^ 52 * 2 ^ 53) in H by reflexivity. nia.
    - assert (q * 2 ^ 52 < 2 ^ 106) by nia.
      replace (2 ^ 106) with (2 ^ 54 * 2 ^ 52) in H by reflexivity. nia. }
  destruct (round_aux_spec s q (d - 53 - 20) (new_location M6 (N mod M6)) N M6
              ltac:(lia) ltac:(lia) (new_location_ok M6 N ltac:(lia) eq_refl))
    as (mr & B & Hr & E).
  destruct (Zdigits2_spec q ltac:(lia)) as [Q1 Q2].
  assert (Hdq : 53 <= Zdigits2 q <= 54).
  { assert (1 <= Zdigits2 q) by (apply Zdigits2_pos; lia).
    assert (Zdigits2 q - 1 < 54) by (apply pow2_lt_lt; lia).
    assert (52 < Zdigits2 q) by (apply pow2_lt_lt; lia). lia. }
  replace (Z.max (d - 53 - 20) (fexp64 (Zdigits2 q + (d - 53 - 20))))
    with (d - 73 + (Zdigits2 q - 53)) in B, E by (unfold fexp64; lia).
  replace (d - 73 + (Zdigits2 q - 53) - (d - 53 - 20)) with (Zdigits2 q - 53) in B by lia.
  exists mr, (Zdigits2 q - 53). split; [exact E|]. split; [lia|]. split; [exact B|exact Hr].
Qed.

Lemma key_arith (n N S M P Dl P2 Dl3 K mr m mr2 m3 N2 : Z) :
  0 < P -> 0 < Dl -> 0 < P2 -> 0 < Dl3 -> 0 < K ->
  K * (P * Dl * P2 * Dl3) = S -> 2 ^ 55 <= S -> N = n * S ->
  M * P * (2 * mr - 1) <= 2 * N <= M * P * (2 * mr + 1) ->
  m * Dl = mr ->
  P2 * (2 * mr2 - 1) <= 2 * N2 <= P2 * (2 * mr2 + 1) ->
  N2 = m * M ->
  m3 * Dl3 = mr2 ->
  P2 * P * Dl <= 2 ^ 54 -> M * P < 2 ^ 54 ->
  K * (2 * n - 1) < 2 * m3 < K * (2 * n + 1).
Proof.
  intros HP HDl HP2 HDl3 HK HS H55 HN B1 Em B2 EN2 Em3 HW HMP.
  set (W := P2 * P * Dl) in *.
  assert (Y1 : P * Dl * (P2 * (2 * mr2 - 1)) <= P * Dl * (2 * N2) <= P * Dl * (P2 * (2 * mr2 + 1))).
  { split; apply Z.mul_le_mono_nonneg_l; nia. }
  assert (Y2 : P * Dl * (2 * N2) = 2 * (M * P * mr)) by (rewrite EN2, <- Em; ring).
  assert (Y3 : P * Dl * (P2 * (2 * mr2 - 1)) = 2 * (mr2 * W) - W) by (unfold W; ring).
  assert (Y4 : P * Dl * (P2 * (2 * mr2 + 1)) = 2 * (mr2 * W) + W) by (unfold W; ring).
  assert (Y5 : M * P * (2 * mr - 1) = 2 * (M * P * mr) - M * P) by ring.
  assert (Y6 : M * P * (2 * mr + 1) = 2 * (M * P * mr) + M * P) by ring.
  set (T := P * Dl * P2 * Dl3) in *.
  assert (Y7 : m3 * T = mr2 * W) by (unfold T, W; rewrite <- Em3; ring).
  assert (Y8 : K * T * (2 * n - 1) = 2 * N - S) by (rewrite HS, HN; ring).
  assert (Y9 : K * T * (2 * n + 1) = 2 * N + S) by (rewrite HS, HN; ring).
  assert (HT : 0 < T) by (unfold T; apply Z.mul_pos_pos; [apply Z.mul_pos_pos; [apply Z.mul_pos_pos|]|]; assumption).
  rewrite Y2, Y3, Y4 in Y1. rewrite Y5, Y6 in B1.
  assert (Z1 : K * T * (2 * n - 1) < 2 * m3 * T) by lia.
  assert (Z2 : 2 * m3 * T < K * T * (2 * n + 1)) by lia.
  split.
  - apply (Z.mul_lt_mono_pos_r T); [exact HT|]. lia.
  - apply (Z.mul_lt_mono_pos_r T); [exact HT|]. lia.
Qed.

Lemma pow01 (x : Z) : 0 <= x <= 1 -> 1 <= 2 ^ x <= 2.
Proof. intros H. destruct (Z.eq_dec x 0) as [->|]; [cbn; lia|replace x with 1 by lia; cbn; lia]. Qed.

Lemma key_pos (s : bool) (n : Z) :
  0 < n < 2 ^ 50 ->
  F64.round_parts ((F64.of_parts s n / million) * million) = Some (s, n).
Proof.
  intros Hn. destruct (digits_n_bounds n Hn) as [Hd [D1 D2]].
  destruct (div_step s n Hn) as (mr & p & Ediv & Hp & B1 & Hmr).
  set (d := Zdigits2 n) in *.
  set (N := n * 2 ^ (106 - d)) in *.
  pose proof M6_bounds as HM.
  assert (HNb : 2 ^ 105 <= N < 2 ^ 106).
  { unfold N.
    replace (2 ^ 105) with (2 ^ (d - 1) * 2 ^ (106 - d)) by (rewrite <- Z.pow_add_r by lia; f_equal; lia).
    replace (2 ^ 106) with (2 ^ d * 2 ^ (106 - d)) by (rewrite <- Z.pow_add_r by lia; f_equal; lia).
    assert (0 < 2 ^ (106 - d)) by (apply Z.pow_pos_nonneg; lia).
    clear - D1 D2 H. nia. }
  set (P := 2 ^ p) in *.
  assert (HP : 1 <= P <= 2) by (apply pow01; exact Hp).
  assert (HMP : M6 * P < 2 ^ 54) by (clear - HM HP; nia).
  assert (Hmr0 : 0 < mr) by (clear - B1 HNb HMP HP HM; nia).
  destruct (finalize_finite s mr (d - 73 + p) ltac:(lia) ltac:(lia)) as (m & dl & Ef & Hdl & Em & Hm53).
  unfold F64.round_parts. rewrite mul_spec, Ediv, Ef, million_sf.
  unfold SF64mul. cbn [SFmul]. change prec with 53. change emax with 1024.
  rewrite Bool.xorb_false_r.
  set (ex2 := d - 73 + p + dl + -33).
  set (N2 := Z.pos (m * 8589934592000000)).
  assert (EN2 : N2 = Z.pos m * M6) by reflexivity.
  destruct (round_aux_spec s N2 ex2 loc_Exact N2 1 ltac:(lia) ltac:(lia) ltac:(unfold loc_ok; lia))
    as (mr2 & B2 & Hr2 & E2).
  rewrite E2.
  destruct (Zdigits2_spec N2 ltac:(lia)) as [Q1 Q2].
  set (dN2 := Zdigits2 N2) in *.
  assert (HdN2 : 53 <= dN2).
  { assert (M6 <= N2) by (rewrite EN2; pose proof (Pos2Z.is_pos m); clear - H HM; nia).
    assert (2 ^ 52 < 2 ^ dN2) by lia.
    assert (1 <= dN2) by (apply Zdigits2_pos; lia).
    assert (52 < dN2) by (apply pow2_lt_lt; lia). lia. }
  replace (Z.max ex2 (fexp64 (dN2 + ex2))) with (dN2 + ex2 - 53) in B2, E2 |- * by (unfold fexp64, ex2; lia).
  replace (dN2 + ex2 - 53 - ex2) with (dN2 - 53) in B2 by lia.
  rewrite Z.mul_1_l in B2.
  set (P2 := 2 ^ (dN2 - 53)) in *.
  set (Dl := 2 ^ dl) in *.
  assert (HDl : 1 <= Dl <= 2) by (apply pow01; exact Hdl).
  assert (HP2 : 2 ^ (dN2 - 1) = P2 * 2 ^ 52)
    by (unfold P2; rewrite <- Z.pow_add_r by lia; f_equal; lia).
  assert (HP2pos : 0 < P2) by (unfold P2; apply Z.pow_pos_nonneg; lia).
  assert (Hmr2 : 0 < mr2) by (rewrite HP2 in Q1; clear - B2 Q1 HP2pos; nia).
  (* the product has at most 107 - p - dl digits *)
  assert (HW : P2 * P * Dl <= 2 ^ 54).
  { rewrite HP2 in Q1.
    assert (X1 : P2 * 2 ^ 52 * P * Dl <= M6 * P * mr).
    { rewrite <- Em. rewrite EN2 in Q1.
      replace (P2 * 2 ^ 52 * P * Dl) with ((P2 * 2 ^ 52) * (P * Dl)) by ring.
      replace (M6 * P * (Z.pos m * Dl)) with ((Z.pos m * M6) * (P * Dl)) by ring.
      apply Z.mul_le_mono_nonneg_r; [|exact Q1]. clear - HP HDl. lia. }
    assert (X2 : M6 * P * mr < 2 ^ 107) by (clear - B1 HNb HMP; nia).
    assert (X3 : 2 ^ (dN2 - 53 + 52 + p + dl) < 2 ^ 107).
    { rewrite !Z.pow_add_r by lia. fold P2 P Dl. lia. }
    apply pow2_lt_lt in X3; [|lia|lia].
    unfold P2, P, Dl. rewrite <- !Z.pow_add_r by lia. apply Z.pow_le_mono_r; lia. }
  assert (Hj0 : dN2 - 53 + p + dl <= 54).
  { assert (X : 2 ^ (dN2 - 53 + p + dl) <= 2 ^ 54)
      by (rewrite !Z.pow_add_r by lia; fold P2 P Dl; lia).
    destruct (Z.le_gt_cases (dN2 - 53 + p + dl) 54) as [|Hc]; [assumption|].
    pose proof (Z.pow_lt_mono_r 2 54 (dN2 - 53 + p + dl) ltac:(lia) ltac:(lia) Hc). lia. }
  destruct (finalize_finite s mr2 (dN2 + ex2 - 53) ltac:(lia) ltac:(unfold ex2; lia))
    as (m3 & dl3 & Ef3 & Hdl3 & Em3 & Hm3).
  rewrite Ef3. cbv iota beta.
  set (Dl3 := 2 ^ dl3) in *.
  set (k := - (dN2 + ex2 - 53 + dl3)).
  assert (Hk : 1 <= k) by (unfold k, ex2; lia).
  replace (0 <=? dN2 + ex2 - 53 + dl3) with false by (symmetry; apply Z.leb_gt; unfold ex2; lia).
  f_equal. f_equal. apply rha_unique; [lia|].
  apply (key_arith n N (2 ^ (106 - d)) M6 P Dl P2 Dl3 (2 ^ k) mr (Z.pos m) mr2 (Z.pos m3) N2);
    try lia.
  - unfold P, Dl, P2, Dl3. rewrite <- !Z.pow_add_r by lia. f_equal. unfold k, ex2. lia.
  - apply Z.pow_le_mono_r; lia.
Qed.

Lemma key_zero (s : bool) :
  F64.round_parts ((F64.of_parts s 0 / million) * million) = Some (s, 0).
Proof. destruct s; vm_compute; reflexivity. Qed.

Lemma key (s : bool) (n : Z) :
  0 <= n < 2 ^ 50 ->
  F64.round_parts ((F64.of_parts s n / million) * million) = Some (s, n).
Proof.
  intros Hn. destruct (Z.eq_dec n 0) as [->|Hz].
  - apply key_zero.
  - apply key_pos. lia.
Qed.

Lemma bound_arith (K Dl Gp Xp n m' mr mx m M : Z) :
  0 < K -> 0 < Dl -> 0 < Gp -> 0 < Xp -> 0 <= M < 2 ^ 53 ->
  K * (2 * n - 1) <= 2 * m' -> m' * Dl = mr ->
  Gp * (2 * mr - 1) <= 2 * mx -> mx = m * M -> m <= 2 ^ 52 * Xp ->
  K * Dl * Gp = 2 ^ 56 * Xp -> Gp < 2 ^ 56 * Xp ->
  n < 2 ^ 50.
Proof.
  intros HK HDl HGp HXp HM B1 Em B2 Emx Hm HE HG.
  assert (A1 : K * Dl * Gp * (2 * n - 1) <= Dl * Gp * (2 * m')).
  { replace (K * Dl * Gp * (2 * n - 1)) with (Dl * Gp * (K * (2 * n - 1))) by ring.
    apply Z.mul_le_mono_nonneg_l; [nia|exact B1]. }
  assert (A2 : Dl * Gp * (2 * m') = 2 * (Gp * mr)) by (rewrite <- Em; ring).
  assert (A3 : m * M <= 2 ^ 52 * Xp * M) by (apply Z.mul_le_mono_nonneg_r; lia).
  assert (A4 : 2 ^ 52 * Xp * M < 2 ^ 52 * Xp * 2 ^ 53).
  { apply Z.mul_lt_mono_pos_l; [nia|lia]. }
  rewrite HE in A1.
  assert (A5 : 2 ^ 56 * Xp * (2 * n - 1) < Xp * (2 ^ 106 + 2 ^ 56)) by lia.
  assert (A6 : 2 ^ 56 * (2 * n - 1) < 2 ^ 106 + 2 ^ 56).
  { apply (Z.mul_lt_mono_pos_l Xp); [exact HXp|]. lia. }
  lia.
Qed.

Lemma pcc_lt (m q : positive) : PosDef.Pos.compare_cont Eq m q = Lt -> Z.pos m < Z.pos q.
Proof. intros H. exact H. Qed.

Lemma pcc_eq (m q : positive) : PosDef.Pos.compare_cont Eq m q = Eq -> m = q.
Proof. intros H. apply Pos.compare_eq. exact H. Qed.

Lemma float_le_29 (v : float) :
  (PrimFloat.abs v <=? 536870912)%float = true ->
  exists s n, F64.round_parts (v * million) = Some (s, n) /\ 0 <= n < 2 ^ 50.
Proof.
  intros H. rewrite leb_spec, abs_spec in H.
  change (Prim2SF 536870912) with (S754_finite false 4503599627370496 (-23)) in H.
  pose proof (Prim2SF_valid v) as Hv.
  unfold F64.round_parts. rewrite mul_spec, million_sf.
  destruct (Prim2SF v) as [s|s| |s m e] eqn:Ev.
  - exists s, 0. destruct s; split; [reflexivity|lia|reflexivity|lia].
  - discriminate H.
  - discriminate H.
  - (* valid: at most 53 digits, exponent at least -1074 *)
    unfold SpecFloat.valid_binary, bounded, canonical_mantissa in Hv.
    apply andb_prop in Hv as [Hc _]. apply Z.eqb_eq in Hc.
    change (Z.pos (digits2_pos m)) with (Zdigits2 (Z.pos m)) in Hc.
    rewrite fexp_eq in Hc. unfold fexp64 in Hc.
    destruct (Zdigits2_spec (Z.pos m) ltac:(lia)) as [Dm1 Dm2].
    assert (Hm53 : Z.pos m < 2 ^ 53).
    { apply (Z.lt_le_trans _ _ _ Dm2). apply Z.pow_le_mono_r; lia. }
    (* |v| <= 2^29 *)
    assert (HX : e <= -23 /\ Z.pos m <= 2 ^ 52 * 2 ^ (-23 - e)).
    { cbv beta iota delta [SFleb SFcompare SFabs] in H.
      destruct (Z.compare_spec e (-23)) as [Heq|Hlt|Hgt].
      - subst e. split; [lia|]. rewrite Z.sub_diag, Z.mul_1_r.
        destruct (PosDef.Pos.compare_cont Eq m 4503599627370496) eqn:Ec; try discriminate H.
        + apply pcc_eq in Ec. subst m. reflexivity.
        + apply pcc_lt in Ec. change (2 ^ 52) with (Z.pos 4503599627370496). lia.
      - split; [lia|].
        assert (2 ^ 53 <= 2 ^ 52 * 2 ^ (-23 - e)).
        { replace (2 ^ 53) with (2 ^ 52 * 2 ^ 1) by reflexivity.
          apply Z.mul_le_mono_nonneg_l; [lia|]. apply Z.pow_le_mono_r; lia. }
        lia.
      - discriminate H. }
    destruct HX as [He HX].
    unfold SF64mul. cbn [SFmul]. change prec with 53. change emax with 1024.
    rewrite Bool.xorb_false_r.
    set (mx := Z.pos (m * 8589934592000000)).
    assert (Emx : mx = Z.pos m * M6) by reflexivity.
    destruct (round_aux_spec s mx (e + -33) loc_Exact mx 1 ltac:(lia) ltac:(lia) ltac:(unfold loc_ok; lia))
      as (mr & B2 & Hr2 & E2).
    rewrite E2. rewrite Z.mul_1_l in B2.
    set (e1 := Z.max (e + -33) (fexp64 (Zdigits2 mx + (e + -33)))) in *.
    pose proof M6_bounds as HM.
    destruct (Zdigits2_spec mx ltac:(lia)) as [Q1 Q2].
    assert (Hdx : Zdigits2 mx <= 106).
    { assert (mx < 2 ^ 106).
      { rewrite Emx. replace (2 ^ 106) with (2 ^ 53 * 2 ^ 53) by reflexivity.
        apply Z.mul_lt_mono_nonneg; lia. }
      assert (1 <= Zdigits2 mx) by (apply Zdigits2_pos; lia).
      assert (Zdigits2 mx - 1 < 106) by (apply pow2_lt_lt; lia). lia. }
    assert (He1 : e + -33 <= e1 <= -3) by (unfold e1, fexp64; lia).
    destruct (Z.eq_dec mr 0) as [->|Hmr0].
    + exists s, 0. rewrite finalize_zero. split; [reflexivity|lia].
    + destruct (finalize_finite s mr e1 ltac:(lia) ltac:(lia)) as (m' & dl & Ef & Hdl & Em & Hm').
      rewrite Ef.
      replace (0 <=? e1 + dl) with false by (symmetry; apply Z.leb_gt; lia).
      exists s, (F64.round_half_away m' (- (e1 + dl))). split; [reflexivity|].
      pose proof (rha_bounds m' (- (e1 + dl)) ltac:(lia)) as [R1 R2].
      split.
      * assert (0 < 2 ^ (- (e1 + dl))) by (apply Z.pow_pos_nonneg; lia).
        set (K := 2 ^ (- (e1 + dl))) in *. set (r := F64.round_half_away m' (- (e1 + dl))) in *.
        clear - R2 H0. nia.
      * apply (bound_arith (2 ^ (- (e1 + dl))) (2 ^ dl) (2 ^ (e1 - (e + -33))) (2 ^ (-23 - e))
                 _ (Z.pos m') mr mx (Z.pos m) M6); try lia.
        all: first [ apply Z.pow_pos_nonneg; lia
                   | rewrite <- !Z.pow_add_r by lia; f_equal; lia
                   | rewrite <- Z.pow_add_r by lia; apply Z.pow_lt_mono_r; lia ].
Qed.

Lemma round6_parts (v : float) (s : bool) (n : Z) :
  F64.round_parts (v * million) = Some (s, n) ->
  round6 v = (F64.of_parts s n / million)%float.
Proof. intros H. unfold round6, F64.round. rewrite H. reflexivity. Qed.

End Round6_facts.

(** C8 (counterexample): [round6] is not idempotent on every float64:
    for [v = 4294967296.000011], [round6 v = 4294967296.000012] while
    [round6 (round6 v) = 4294967296.000013]. *)
Lemma round6_not_idempotent :
  round6 (4294967296.000011)%float = (4294967296.000012)%float /\
  round6 (round6 (4294967296.000011)%float) = (4294967296.000013)%float /\
  round6 (round6 (4294967296.000011)%float) <> round6 (4294967296.000011)%float.
Proof.
  split; [vm_compute; reflexivity|]. split; [vm_compute; reflexivity|].
  intros H. apply (f_equal Prim2SF) in H. vm_compute in H. discriminate H.
Qed.

(** C8 (amended): for every float64 [v] with [|v| <= 2^29 = 536870912],
    [round6 (round6 v) = round6 v], where [round6 v] is
    [round(v * 1e6) / 1e6] in float64 arithmetic. *)
Theorem round6_idempotent_small (v : float) :
  (PrimFloat.abs v <=? 536870912)%float = true ->
  round6 (round6 v) = round6 v.
Proof.
  intros H. destruct (Round6_facts.float_le_29 v H) as (s & n & E & Hn).
  rewrite (Round6_facts.round6_parts v s n E).
  unfold round6 at 1, F64.round. rewrite (Round6_facts.key s n Hn). reflexivity.
Qed.

Lemma round6_idempotent_small_witness :
  (PrimFloat.abs 2.0000005 <=? 536870912)%float = true /\
  round6 (round6 (2.0000005)%float) = round6 (2.0000005)%float.
Proof.
  split; [vm_compute; reflexivity|].
  apply round6_idempotent_small. vm_compute. reflexivity.
Defined.


Module Read_facts.
Import Effects Run_facts.

Lemma read_activities_none l w :
  In None l -> exists t, read_activities l w = (mkWorld (store w) t, Err ReadError).
Proof.
  revert w. induction l as [|[x|] l IH]; intros w H; [destruct H| |].
  - destruct H as [H|H]; [discriminate H|].
    destruct (IH (mkWorld (store w) (trace w ++ [EvReadAct x])) H) as (t & E).
    exists t. cbn [read_activities]. rewrite (bind_ok _ _ _ _ tt eq_refl).
    rewrite (bind_err _ _ _ _ _ E). reflexivity.
  - exists (trace w). destruct w; reflexivity.
Qed.

Lemma read_history_none l w :
  In None l -> exists t, read_history l w = (mkWorld (store w) t, Err ReadError).
Proof.
  revert w. induction l as [|[x|] l IH]; intros w H; [destruct H| |].
  - destruct H as [H|H]; [discriminate H|].
    destruct (IH (mkWorld (store w) (trace w ++ [EvReadHis x])) H) as (t & E).
    exists t. cbn [read_history]. rewrite (bind_ok _ _ _ _ tt eq_refl).
    rewrite (bind_err _ _ _ _ _ E). reflexivity.
  - exists (trace w). destruct w; reflexivity.
Qed.

Lemma all_some {A} (l : list (option A)) : ~ In None l -> exists l', l = map Some l'.
Proof.
  induction l as [|[x|] l IH]; intros H.
  - exists []. reflexivity.
  - destruct IH as (l' & ->); [intros H'; apply H; right; exact H'|]. exists (x :: l'). reflexivity.
  - exfalso. apply H. left. reflexivity.
Qed.

Lemma in_none_dec {A} (l : list (option A)) : {In None l} + {~ In None l}.
Proof.
  induction l as [|[x|] l IH].
  - right. intros [].
  - destruct IH as [H|H]; [left; right; exact H|right; intros [E|E]; [discriminate E|contradiction]].
  - left. left. reflexivity.
Defined.

End Read_facts.

Module Local_facts.
Import Chrono Local.

Lemma checked_sub_midnight (y m d o : Z) :
  valid_ymd y m d = true -> MIN_YEAR < y -> -86400 < o < 86400 ->
  exists u, checked_sub_offset (mkDT (mkDate y m d) 0) o = Some u.
Proof.
  intros Hv Hmin Ho. pose proof Hv as Hv'. apply Calendar.valid_ymd_spec in Hv' as (Hy & Hm & Hd).
  unfold checked_sub_offset. cbn [ndt_secs ndt_date].
  destruct (Z_lt_le_dec 0 o) as [Hpos|Hneg].
  - rewrite (Calendar.time_sub_offset_pos o) by lia. rewrite Z.eqb_refl.
    unfold pred_opt.
    destruct (1 <? d); [eexists; reflexivity|].
    destruct (1 <? m); [eexists; reflexivity|].
    unfold from_ymd_opt.
    replace (valid_ymd (y - 1) 12 31) with true; [eexists; reflexivity|].
    symmetry. apply Calendar.valid_ymd_spec.
    replace (days_in_month (y - 1) 12) with 31 by reflexivity. lia.
  - rewrite (Calendar.time_sub_offset_nonpos o) by lia.
    eexists. reflexivity.
Qed.

End Local_facts.

Module Round6_sign.

Lemma round_aux_opp prec emax sx mx ex lx :
  binary_round_aux prec emax (negb sx) mx ex lx = SFopp (binary_round_aux prec emax sx mx ex lx).
Proof.
  unfold binary_round_aux.
  repeat match goal with
         | |- context [match ?x with pair _ _ => _ end] => destruct x
         end.
  destruct (shr_m _) as [|p|p]; [reflexivity| |reflexivity].
  destruct (_ <=? _); reflexivity.
Qed.

Lemma normalize_opp prec emax m e sz :
  binary_normalize prec emax (- m) e (negb sz) = SFopp (binary_normalize prec emax m e sz).
Proof.
  destruct m as [|p|p]; cbn [Z.opp binary_normalize]; [reflexivity| |];
  unfold binary_round;
  destruct (shl_align _ _ _); [apply (round_aux_opp _ _ false) | apply (round_aux_opp _ _ true)].
Qed.

Lemma SFmul_opp_l prec emax x y :
  SFmul prec emax (SFopp x) y = SFopp (SFmul prec emax x y).
Proof.
  destruct x as [sx|sx| |sx mx ex]; destruct y as [sy|sy| |sy my ey]; cbn [SFopp SFmul];
    try reflexivity; try (destruct sx, sy; reflexivity).
  replace (xorb (negb sx) sy) with (negb (xorb sx sy)) by (destruct sx, sy; reflexivity). apply round_aux_opp.
Qed.

Lemma SFdiv_opp_l prec emax x y :
  SFdiv prec emax (SFopp x) y = SFopp (SFdiv prec emax x y).
Proof.
  destruct x as [sx|sx| |sx mx ex]; destruct y as [sy|sy| |sy my ey]; cbn [SFopp SFdiv];
    try reflexivity; try (destruct sx, sy; reflexivity).
  replace (xorb (negb sx) sy) with (negb (xorb sx sy)) by (destruct sx, sy; reflexivity). destruct (SFdiv_core_binary _ _ _ _ _ _) as [[mz ez] lz].
  apply round_aux_opp.
Qed.

Lemma opp_opp (f : float) : (- - f)%float = f.
Proof.
  apply Prim2SF_inj. rewrite !opp_spec. destruct (Prim2SF f) as [[]|[]| |[] ? ?]; reflexivity.
Qed.

Lemma SF2Prim_opp (z : spec_float) : SF2Prim (SFopp z) = (- SF2Prim z)%float.
Proof.
  destruct z as [[]|[]| |[] m e]; try reflexivity;
    cbn [SFopp SF2Prim negb]; cbv zeta.
  - symmetry. apply opp_opp.
Qed.

Lemma mul_opp_l (x y : float) : ((- x) * y)%float = (- (x * y))%float.
Proof. apply Prim2SF_inj. rewrite mul_spec, !opp_spec, mul_spec. apply SFmul_opp_l. Qed.

Lemma div_opp_l (x y : float) : ((- x) / y)%float = (- (x / y))%float.
Proof. apply Prim2SF_inj. rewrite div_spec, !opp_spec, div_spec. apply SFdiv_opp_l. Qed.

Lemma round_parts_opp (x : float) :
  F64.round_parts (- x) = option_map (fun '(s, n) => (negb s, n)) (F64.round_parts x).
Proof.
  unfold F64.round_parts. rewrite opp_spec. destruct (Prim2SF x); reflexivity.
Qed.

Lemma of_parts_opp s n : F64.of_parts (negb s) n = (- F64.of_parts s n)%float.
Proof.
  unfold F64.of_parts. rewrite <- SF2Prim_opp, <- normalize_opp.
  destruct s; cbn [negb]; [rewrite Z.opp_involutive|]; reflexivity.
Qed.

Lemma round_opp (x : float) : F64.round (- x) = (- F64.round x)%float.
Proof.
  unfold F64.round. rewrite round_parts_opp.
  destruct (F64.round_parts x) as [[s n]|]; cbn [option_map]; [apply of_parts_opp|reflexivity].
Qed.

End Round6_sign.

(** ** Whole runs of [main] *)

(** A legacy row that does not convert, in either table, stops the run
    with a read error before the destination file is opened: only the
    config folder may have been created. *)
Theorem main_read_error (tz : Local.TimeZone) (src : Legacy) (w : World) :
  In None (legacy_activities src) \/ In None (legacy_history src) ->
  exists w', main tz src w = (w', Err ReadError) /\
    store w' = (if dcpath_present (store w) then store w else set_dcpath (store w)).
Proof.
  intros Hn. destruct (Run_facts.main_after_setup tz src w) as (w1 & E & S). rewrite E.
  destruct (Read_facts.in_none_dec (legacy_activities src)) as [Ha|Ha].
  - destruct (Read_facts.read_activities_none _ w1 Ha) as (t & Ea).
    eexists. rewrite (Effects.bind_err _ _ _ _ _ Ea). split; [reflexivity|exact S].
  - destruct (Read_facts.all_some _ Ha) as (l & El).
    destruct Hn as [Hn|Hn]; [contradiction|].
    rewrite El, (Effects.bind_ok _ _ _ _ _ (Store_facts.read_activities_map l w1)).
    destruct (Read_facts.read_history_none _ (mkWorld (store w1) (trace w1 ++ map EvReadAct l)) Hn)
      as (t & Eh).
    eexists. rewrite (Effects.bind_err _ _ _ _ _ Eh). split; [reflexivity|exact S].
Qed.

Lemma main_read_error_witness :
  In None (legacy_history (mkLegacy [Some sample_activity] [None])) /\
  exists w', main Local.UTC (mkLegacy [Some sample_activity] [None]) fresh_world = (w', Err ReadError) /\
    store w' = (if dcpath_present (store fresh_world) then store fresh_world
                else set_dcpath (store fresh_world)).
Proof.
  split; [left; reflexivity|].
  apply (main_read_error Local.UTC (mkLegacy [Some sample_activity] [None]) fresh_world).
  right. left. reflexivity.
Defined.

(** When every legacy row converts, the destination is either new or
    already has both tables, the activity ids are distinct from each
    other and from those already stored, every history date localises
    and (if the connection enforces foreign keys) every history row
    refers to a stored activity, the run succeeds: both tables exist and
    hold their former rows followed by the mapped legacy rows, in the
    order of the legacy tables. *)
Theorem main_migrates_all (tz : Local.TimeZone) (src : Legacy) (w : World)
    (oldact : list Old.DBOldRowActivities) (oldhis : list Old.DBOldRowHistory)
    (rows : list NewHis.Row) :
  legacy_activities src = map Some oldact ->
  legacy_history src = map Some oldhis ->
  Run_facts.schema_ok (store w) ->
  NoDup (map NewAct.id (tt_activities (store w) ++ map activity_params oldact)) ->
  Forall2 (fun e r => history_params tz e = Some r) oldhis rows ->
  (foreign_keys (store w) = false \/
   Forall (fun r => In (NewHis.id r) (map NewAct.id (tt_activities (store w) ++ map activity_params oldact)))
          rows) ->
  exists t, main tz src w =
    (mkWorld (mkStore true true true true (foreign_keys (store w))
                      (tt_activities (store w) ++ map activity_params oldact)
                      (tt_history (store w) ++ rows)) t, Ok tt).
Proof.
  intros Ha Hh Hs Hn Hf Hk.
  destruct (Run_facts.main_prefix tz src w oldact oldhis Ha Hh) as (t0 & E). rewrite E.
  destruct (Run_facts.schema_step (store w) t0 Hs) as (t1 & E1).
  rewrite (Effects.bind_ok _ _ _ _ _ E1).
  destruct (Run_facts.act_loop_ok oldact (mkWorld (Run_facts.ready (store w)) t1) eq_refl Hn) as (t2 & E2).
  rewrite (Effects.bind_ok _ _ _ _ _ E2). cbv beta.
  match goal with
  | |- context [for_each (history_step _) _ ?W] => destruct (Run_facts.his_loop_ok tz oldhis rows W eq_refl Hf Hk) as (t3 & E3)
  end.
  exists t3. rewrite E3. reflexivity.
Qed.

Lemma main_migrates_all_witness :
  Forall2 (fun e r => history_params Local.UTC e = Some r) [sample_history] [expected_history_row] /\
  exists t, main Local.UTC sample_legacy fresh_world =
    (mkWorld (mkStore true true true true (foreign_keys (store fresh_world))
                      (tt_activities (store fresh_world) ++ map activity_params [sample_activity])
                      (tt_history (store fresh_world) ++ [expected_history_row])) t, Ok tt).
Proof.
  assert (Hf : Forall2 (fun e r => history_params Local.UTC e = Some r) [sample_history] [expected_history_row])
    by (constructor; [vm_compute; reflexivity|constructor]).
  split; [exact Hf|].
  apply (main_migrates_all Local.UTC sample_legacy fresh_world [sample_activity] [sample_history]
           [expected_history_row]); try reflexivity.
  - left. split; [reflexivity|split; reflexivity].
  - cbn. constructor; [intros []|constructor].
  - exact Hf.
  - left. reflexivity.
Defined.

(** An activity id met twice (in the legacy table, or already in the
    destination) makes the run stop with a uniqueness violation while
    inserting activities: no history row is inserted. *)
Theorem main_duplicate_ids (tz : Local.TimeZone) (src : Legacy) (w : World)
    (oldact : list Old.DBOldRowActivities) (oldhis : list Old.DBOldRowHistory) :
  legacy_activities src = map Some oldact ->
  legacy_history src = map Some oldhis ->
  Run_facts.schema_ok (store w) ->
  NoDup (map NewAct.id (tt_activities (store w))) ->
  ~ NoDup (map NewAct.id (tt_activities (store w) ++ map activity_params oldact)) ->
  exists w', main tz src w = (w', Err UniqueViolation) /\
    tt_history (store w') = tt_history (store w).
Proof.
  intros Ha Hh Hs Hn Hd.
  destruct (Run_facts.main_prefix tz src w oldact oldhis Ha Hh) as (t0 & E). rewrite E.
  destruct (Run_facts.schema_step (store w) t0 Hs) as (t1 & E1).
  rewrite (Effects.bind_ok _ _ _ _ _ E1).
  destruct (Run_facts.act_loop_dup oldact (mkWorld (Run_facts.ready (store w)) t1) eq_refl Hn Hd)
    as (w' & E2 & H2).
  exists w'. rewrite (Effects.bind_err _ _ _ _ _ E2). split; [reflexivity|exact H2].
Qed.

Lemma main_duplicate_ids_witness :
  ~ NoDup (map NewAct.id (tt_activities (store fresh_world) ++
                          map activity_params [sample_activity; sample_activity])) /\
  exists w', main Local.UTC (mkLegacy [Some sample_activity; Some sample_activity] [Some sample_history])
               fresh_world = (w', Err UniqueViolation) /\
    tt_history (store w') = tt_history (store fresh_world).
Proof.
  assert (Hd : ~ NoDup (map NewAct.id (tt_activities (store fresh_world) ++
                                       map activity_params [sample_activity; sample_activity]))).
  { cbn. intros H. inversion H as [|x l Hx _]. apply Hx. left. reflexivity. }
  split; [exact Hd|].
  apply (main_duplicate_ids Local.UTC (mkLegacy [Some sample_activity; Some sample_activity] [Some sample_history])
           fresh_world [sample_activity; sample_activity] [sample_history]); try reflexivity.
  - left. split; [reflexivity|split; reflexivity].
  - constructor.
  - exact Hd.
Defined.

(** A history row whose date does not localise stops the run with a
    date error; the run has no transaction, so every activity and the
    history rows before it stay inserted. *)
Theorem main_date_error (tz : Local.TimeZone) (src : Legacy) (w : World)
    (oldact : list Old.DBOldRowActivities) (pre post : list Old.DBOldRowHistory)
    (e : Old.DBOldRowHistory) (rows : list NewHis.Row) :
  legacy_activities src = map Some oldact ->
  legacy_history src = map Some (pre ++ e :: post) ->
  Run_facts.schema_ok (store w) ->
  NoDup (map NewAct.id (tt_activities (store w) ++ map activity_params oldact)) ->
  Forall2 (fun e r => history_params tz e = Some r) pre rows ->
  (foreign_keys (store w) = false \/
   Forall (fun r => In (NewHis.id r) (map NewAct.id (tt_activities (store w) ++ map activity_params oldact)))
          rows) ->
  history_params tz e = None ->
  exists w', main tz src w = (w', Err DateError) /\
    tt_activities (store w') = tt_activities (store w) ++ map activity_params oldact /\
    tt_history (store w') = tt_history (store w) ++ rows.
Proof.
  intros Ha Hh Hs Hn Hf Hk He.
  destruct (Run_facts.main_prefix tz src w oldact (pre ++ e :: post) Ha Hh) as (t0 & E). rewrite E.
  destruct (Run_facts.schema_step (store w) t0 Hs) as (t1 & E1).
  rewrite (Effects.bind_ok _ _ _ _ _ E1).
  destruct (Run_facts.act_loop_ok oldact (mkWorld (Run_facts.ready (store w)) t1) eq_refl Hn) as (t2 & E2).
  rewrite (Effects.bind_ok _ _ _ _ _ E2). cbv beta.
  match goal with
  | |- context [for_each (history_step _) _ ?W] =>
      destruct (Run_facts.his_loop_date tz pre e post rows W eq_refl Hf Hk He) as (w' & E3 & A3 & H3)
  end.
  exists w'. split; [exact E3|]. split; [exact A3|exact H3].
Qed.

Definition leap_day_2019 : Old.DBOldRowHistory := Old.mkHis 1 2019 2 29 9 1%float "2019-02-29".

Lemma main_date_error_witness :
  history_params Local.UTC leap_day_2019 = None /\
  exists w', main Local.UTC (mkLegacy [Some sample_activity] [Some sample_history; Some leap_day_2019])
               fresh_world = (w', Err DateError) /\
    tt_activities (store w') = tt_activities (store fresh_world) ++ map activity_params [sample_activity] /\
    tt_history (store w') = tt_history (store fresh_world) ++ [expected_history_row].
Proof.
  assert (He : history_params Local.UTC leap_day_2019 = None) by (vm_compute; reflexivity).
  split; [exact He|].
  apply (main_date_error Local.UTC (mkLegacy [Some sample_activity] [Some sample_history; Some leap_day_2019])
           fresh_world [sample_activity] [sample_history] [] leap_day_2019 [expected_history_row]);
    try reflexivity.
  - left. split; [reflexivity|split; reflexivity].
  - cbn. constructor; [intros []|constructor].
  - constructor; [vm_compute; reflexivity|constructor].
  - left. reflexivity.
Defined.

(** On a destination file that exists without [tt_activities], the run
    issues no [CREATE TABLE] and stops at its first activity insert with
    "no such table"; the stored rows are untouched. *)
Theorem main_missing_activity_table (tz : Local.TimeZone) (src : Legacy) (w : World)
    (a : Old.DBOldRowActivities) (oldact : list Old.DBOldRowActivities)
    (oldhis : list Old.DBOldRowHistory) :
  legacy_activities src = map Some (a :: oldact) ->
  legacy_history src = map Some oldhis ->
  dbpath_present (store w) = true ->
  has_tt_activities (store w) = false ->
  exists w', main tz src w = (w', Err (NoSuchTable "tt_activities")) /\
    tt_activities (store w') = tt_activities (store w) /\
    tt_history (store w') = tt_history (store w).
Proof.
  intros Ha Hh Hd Ht.
  destruct (Run_facts.main_prefix tz src w (a :: oldact) oldhis Ha Hh) as (t & E). rewrite E, Hd.
  unfold Run_facts.opened. rewrite Ht.
  eexists. split; [reflexivity|split; reflexivity].
Qed.

Lemma main_missing_activity_table_witness :
  has_tt_activities (store existing_empty_world) = false /\
  exists w', main Local.UTC sample_legacy existing_empty_world = (w', Err (NoSuchTable "tt_activities")) /\
    tt_activities (store w') = tt_activities (store existing_empty_world) /\
    tt_history (store w') = tt_history (store existing_empty_world).
Proof.
  split; [reflexivity|].
  apply (main_missing_activity_table Local.UTC sample_legacy existing_empty_world sample_activity [] [sample_history]);
    reflexivity.
Defined.

(** ** Localisation of a history date *)

(** For a valid date (after the first year chrono represents), the
    localisation yields an ISO week-numbering year exactly when the
    machine's timezone maps local midnight of that date to a single
    offset, and that year is the one of the civil date.  When the
    timezone's offset lookup for that local midnight returns no offset
    or two offsets, the [unwrap] panics and no year is produced. *)
Theorem isoweekyear_of_exactly_single (tz : Local.TimeZone) (y m d : Z) :
  Chrono.valid_ymd y m d = true -> Chrono.MIN_YEAR < y ->
  isoweekyear_of tz y m d =
    match tz (Local.mkDT (Chrono.mkDate y m d) 0) with
    | Local.LSingle _ => Some (civil_iso_year y m d)
    | _ => None
    end.
Proof.
  intros Hv Hmin. pose proof Hv as Hv'. apply Calendar.valid_ymd_spec in Hv' as (Hy & Hm & Hd).
  pose proof (Calendar.days_in_month_bounds y m) as Hb.
  unfold isoweekyear_of, local_midnight, to_u32.
  replace ((0 <=? m) && (m <? 2 ^ 32)) with true
    by (symmetry; apply andb_true_iff; split; [apply Z.leb_le|apply Z.ltb_lt]; lia).
  replace ((0 <=? d) && (d <? 2 ^ 32)) with true
    by (symmetry; apply andb_true_iff; split; [apply Z.leb_le|apply Z.ltb_lt]; lia).
  unfold Local.with_ymd_and_hms, Chrono.from_ymd_opt. rewrite Hv.
  change (Local.and_hms_opt (Chrono.mkDate y m d) 0 0 0) with (Some (Local.mkDT (Chrono.mkDate y m d) 0)).
  cbv beta iota. unfold Local.from_local_datetime, Local.and_then.
  destruct (tz (Local.mkDT (Chrono.mkDate y m d) 0)) as [|off|a b].
  - reflexivity.
  - destruct (Local_facts.checked_sub_midnight y m d (Local.local_minus_utc off) Hv Hmin
                (Local.offset_bounded off)) as (u & Eu).
    rewrite Eu. cbn [Local.unwrap]. unfold Local.dt_iso_week, civil_iso_year, Local.naive_local.
    cbn [Local.dt_utc Local.dt_offset].
    rewrite (Calendar.local_roundtrip (Chrono.mkDate y m d) off u Hv Eu). reflexivity.
  - destruct (Local.checked_sub_offset (Local.mkDT (Chrono.mkDate y m d) 0) (Local.local_minus_utc a));
    destruct (Local.checked_sub_offset (Local.mkDT (Chrono.mkDate y m d) 0) (Local.local_minus_utc b)); reflexivity.
Qed.

Lemma isoweekyear_of_exactly_single_witness :
  isoweekyear_of (Local.fixed_tz plus_one_hour) 2019 1 1 = Some (civil_iso_year 2019 1 1) /\
  isoweekyear_of Local.gap_tz 2019 1 1 = None.
Proof.
  split.
  - apply (isoweekyear_of_exactly_single (Local.fixed_tz plus_one_hour) 2019 1 1); vm_compute; reflexivity.
  - apply (isoweekyear_of_exactly_single Local.gap_tz 2019 1 1); vm_compute; reflexivity.
Defined.

(** ** Sign symmetry of [round6] *)

(** [round6] commutes with negation, for every [f64] (zeros, infinities
    and NaN included): [f64::round] rounds half away from zero and the
    products and quotients by [1e6] are rounded to nearest, all
    symmetric in the sign. *)
Theorem round6_odd (v : float) : round6 (- v)%float = (- round6 v)%float.
Proof.
  unfold round6. rewrite Round6_sign.mul_opp_l, Round6_sign.round_opp. apply Round6_sign.div_opp_l.
Qed.
